(** * The AI casting director: finder dialog and result card

    A shallow embedding of the two components of the voice-casting
    feature and of the data shapes they share:

    - [VoiceFinder.handleAnalyze], the dialog's analyze action: guard on
      the trimmed query, one call to the hosted model, [JSON.parse] of the
      reply, normalisation into an [AiRecommendation], and the single
      [try]/[catch]/[finally] around all of it;
    - [AiResultCard.formattedInstruction], the heading normalisation
      [text.replace(/([^\n])\s*(##)/g, '$1\n\n$2')];
    - [AiResultCard.handleCopy], the copy action with its two-second timer.

    Strings are sequences of UTF-16 code units, as the language has them.
    What [JSON.parse] returns is untyped, so the dialog is modelled over
    the language's values, with the exceptions that property reads and
    method calls raise on them. *)

From Stdlib Require Import List Arith NArith ZArith Bool Lia String Ascii.
From Stdlib Require Import SpecFloat.
From Equations Require Import Equations.
Import ListNotations.

Open Scope N_scope.

(** ** The fragment of the language the components use *)

Module JS.

(** A string is its sequence of 16-bit code units. *)
Definition jsstring := list N.

(** A literal of ASCII characters. *)
Definition js (s : string) : jsstring :=
  map N_of_ascii (list_ascii_of_string s).

Fixpoint eqs (a b : jsstring) : bool :=
  match a, b with
  | [], [] => true
  | x :: a', y :: b' => (x =? y) && eqs a' b'
  | _, _ => false
  end.

Definition is_empty (s : jsstring) : bool :=
  match s with [] => true | _ :: _ => false end.

(** WhiteSpace and LineTerminator code points: what [\s] matches and
    what [trim] strips.  TAB, LF, VT, FF, CR, SP, NBSP, U+1680,
    U+2000..U+200A, LS, PS, U+202F, U+205F, U+3000, U+FEFF. *)
Definition is_space (c : N) : bool :=
  existsb (N.eqb c)
    [9; 10; 11; 12; 13; 32; 160; 5760; 8232; 8233; 8239; 8287; 12288; 65279]
  || ((8192 <=? c) && (c <=? 8202)).

Definition LF : N := 10.
Definition HASH : N := 35.

Fixpoint trimStart (s : jsstring) : jsstring :=
  match s with
  | c :: r => if is_space c then trimStart r else s
  | [] => []
  end.

Definition trimEnd (s : jsstring) : jsstring := rev (trimStart (rev s)).

(** [String.prototype.trim] *)
Definition trim (s : jsstring) : jsstring := trimEnd (trimStart s).

(** A string of spaces only; the empty string is one. *)
Definition blank (s : jsstring) : Prop := Forall (fun c => is_space c = true) s.

(** The values [JSON.parse] builds, and [undefined], which reading a
    missing property gives.  A number is an IEEE 754 double.  An
    object is the list of its own properties; the first binding of a key
    is the property's value. *)
#[local] Set Warnings "-register-all".
Inductive value : Type :=
| VUndefined
| VNull
| VBool (b : bool)
| VNumber (x : spec_float)
| VString (s : jsstring)
| VArray (items : list value)
| VObject (props : list (jsstring * value)).
#[local] Set Warnings "+register-all".

(** ToBoolean *)
Definition truthy (v : value) : bool :=
  match v with
  | VUndefined | VNull => false
  | VBool b => b
  | VNumber (S754_zero _) | VNumber S754_nan => false
  | VNumber _ => true
  | VString s => negb (is_empty s)
  | VArray _ | VObject _ => true
  end.

(** [a || b] *)
Definition or_else (a b : value) : value := if truthy a then a else b.

(** An evaluation completes normally with a value or throws.  The one
    handler in the program ignores what was thrown, so the exception
    carries nothing. *)
Inductive completion (A : Type) : Type :=
| Normal (a : A)
| Throws.
Arguments Normal {A} a.
Arguments Throws {A}.

Definition bind {A B} (m : completion A) (k : A -> completion B) : completion B :=
  match m with
  | Normal a => k a
  | Throws => Throws
  end.

Declare Scope completion_scope.
Delimit Scope completion_scope with completion.
Notation "x <- m ;; k" := (bind m (fun x => k))
  (at level 61, m at next level, right associativity) : completion_scope.

Fixpoint own (props : list (jsstring * value)) (k : jsstring) : option value :=
  match props with
  | [] => None
  | (k', v) :: r => if eqs k k' then Some v else own r k
  end.

(** The own property [k] of [v], when [v] is an object that has one. *)
Definition own_property (v : value) (k : jsstring) : option value :=
  match v with
  | VObject props => own props k
  | _ => None
  end.

(** What reading [v.k] gives when it does not throw, for the names the
    dialog reads: [recommendedVoices], [systemInstruction], [sampleText],
    [scriptParts] and [voiceName].  None of them is an index, [length],
    or a property of the prototype of objects, arrays, strings, numbers or
    booleans, so the read finds an own property of an object or nothing. *)
Definition field (v : value) (k : jsstring) : value :=
  match own_property v k with
  | Some x => x
  | None => VUndefined
  end.

(** A value whose properties can be read. *)
Definition readable (v : value) : bool :=
  match v with
  | VUndefined | VNull => false
  | _ => true
  end.

(** [v.k]: reading a property of [null] or [undefined] throws a
    TypeError. *)
Definition get (v : value) (k : jsstring) : completion value :=
  if readable v then Normal (field v k) else Throws.

Fixpoint mapM {A B} (f : A -> completion B) (l : list A) : completion (list B) :=
  match l with
  | [] => Normal []
  | x :: r =>
      (y <- f x ;;
       ys <- mapM f r ;;
       Normal (y :: ys))%completion
  end.

(** [v.map(f)]: [Array.prototype.map] on an array; on any other value
    that [||] can let through (a non-empty string, a number, [true], an
    object) [map] is not a function and the call throws a TypeError. *)
Definition array_map (v : value) (f : value -> completion value)
  : completion (list value) :=
  match v with
  | VArray items => mapM f items
  | _ => Throws
  end.

(** SameValueZero on doubles: [NaN] equals itself, the two zeros are
    equal. *)
Definition number_same (x y : spec_float) : bool :=
  match x, y with
  | S754_nan, S754_nan => true
  | _, _ => SFeqb x y
  end.

(** SameValueZero between two values held at different places of what
    [JSON.parse] returned.  Every array and object of a parsed tree is
    a reference of its own, so two such values are the same only when
    they are equal primitives. *)
Definition same_value_zero (a b : value) : bool :=
  match a, b with
  | VUndefined, VUndefined => true
  | VNull, VNull => true
  | VBool x, VBool y => Bool.eqb x y
  | VNumber x, VNumber y => number_same x y
  | VString s, VString t => eqs s t
  | _, _ => false
  end.

(** A value that is not a reference: anything but an array or an
    object. *)
Definition primitive (v : value) : bool :=
  match v with
  | VArray _ | VObject _ => false
  | _ => true
  end.

(** What a [Set] keeps of a value it is given: the value, -0 as +0. *)
Definition stored (v : value) : value :=
  match v with
  | VNumber (S754_zero _) => VNumber (S754_zero false)
  | _ => v
  end.

(** A [Set] is the list of its elements in insertion order.
    [Set.prototype.add] appends a value that is not in the set yet. *)
Definition Set_add (s : list value) (v : value) : list value :=
  if existsb (same_value_zero v) s then s else s ++ [stored v].

(** No two elements of the list, at different places, are the same
    value. *)
Definition all_different (l : list value) : Prop :=
  forall i j a b,
    i <> j -> nth_error l i = Some a -> nth_error l j = Some b ->
    same_value_zero a b = false.

(** [new Set(items)] *)
Definition new_Set (items : list value) : list value :=
  fold_left Set_add items [].

(** [Array.from(set)]: the elements in insertion order. *)
Definition Array_from (s : list value) : list value := s.

(** [Set_add] and [new_Set] when every value is a string. *)
Definition add_string (s : list jsstring) (x : jsstring) : list jsstring :=
  if existsb (eqs x) s then s else s ++ [x].

Definition distinct (l : list jsstring) : list jsstring :=
  fold_left add_string l [].

(** The position at which [x] first occurs in [l]; the length of [l]
    when it does not occur. *)
Fixpoint first_index (x : jsstring) (l : list jsstring) : nat :=
  match l with
  | [] => 0%nat
  | y :: r => if eqs x y then 0%nat else S (first_index x r)
  end.

(** [x] stands at place [p] of [l], and no earlier place of [l] holds
    the same value: place [p] is a first occurrence. *)
Definition first_at (l : list value) (p : nat) (x : value) : Prop :=
  nth_error l p = Some x /\
  forall q w, (q < p)%nat -> nth_error l q = Some w -> same_value_zero x w = false.

(** A list of places that goes upwards. *)
Definition increasing (l : list nat) : Prop :=
  forall i j p q,
    (i < j)%nat -> nth_error l i = Some p -> nth_error l j = Some q -> (p < q)%nat.

End JS.

(** ** The shared data shapes (types.ts) *)

Module Types.
Import JS.

Record VoiceAnalysis : Type := {
  gender : jsstring;
  analysis_pitch : jsstring;
  analysis_characteristics : list jsstring;
  visualDescription : jsstring
}.

Record Voice : Type := {
  name : jsstring;
  pitch : jsstring;
  characteristics : list jsstring;
  audioSampleUrl : jsstring;
  fileUri : jsstring;
  analysis : VoiceAnalysis;
  imageUrl : jsstring
}.

Record ScriptPart : Type := {
  speaker : jsstring;
  text : jsstring;
  voiceName : jsstring
}.

(** A script part as the value [JSON.parse] builds for it. *)
Definition part_value (p : ScriptPart) : value :=
  VObject [(js "speaker", VString (speaker p));
           (js "text", VString (text p));
           (js "voiceName", VString (voiceName p))].

(** The interface declares the types of the fields; the dialog stores
    in them whatever the reply held, so the record carries values.  The
    two optional properties are absent ([None]) or hold a value. *)
Record AiRecommendation : Type := {
  voiceNames : value;
  systemInstruction : value;
  sampleText : value;
  isMultiSpeaker : option bool;
  scriptParts : option value
}.

(** An optional property is defined when it is present and does not
    hold [undefined]. *)
Definition defined (o : option value) : bool :=
  match o with
  | None | Some VUndefined => false
  | Some _ => true
  end.

End Types.

(** ** The finder dialog (VoiceFinder) *)

Module VoiceFinder.
Import JS Types.

Inductive Mode : Type := persona | script.

(** An element of [simplifiedVoices]. *)
Record SimplifiedVoice : Type := {
  sv_name : jsstring;
  sv_gender : jsstring;
  sv_characteristics : list jsstring
}.

Definition simplify (v : Voice) : SimplifiedVoice :=
  {| sv_name := name v;
     sv_gender := gender (analysis v);
     sv_characteristics := analysis_characteristics (analysis v) |}.

(** The argument of [generateContent].  The prompt text and the response
    schema are fixed templates filled from the mode, the query and the
    simplified catalogue, so a request is recorded by these. *)
Record Request : Type := {
  model : jsstring;
  contents_mode : Mode;
  contents_query : jsstring;
  contents_voices : list SimplifiedVoice
}.

(** What awaiting [generateContent] gives: the promise rejects, or it
    resolves to a response whose [text] is a string or [undefined]. *)
Inductive Reply : Type :=
| Rejected
| Response (text : option jsstring).

Definition Client : Type := Request -> Reply.

(** The dialog: the [voices] prop, its four state cells, and what it has
    done to its surroundings so far: the requests sent to the model, the
    records passed to [onRecommendation], the calls of [console.error].
    What the parent does with a record is the parent's; the handler is
    taken to return without throwing. *)
Record Dialog : Type := {
  voices : list Voice;
  mode : Mode;
  query : jsstring;
  loading : bool;
  error : option jsstring;
  sent : list Request;
  recommended : list AiRecommendation;
  logged : nat
}.

Definition setLoading (b : bool) (d : Dialog) : Dialog :=
  {| voices := voices d; mode := mode d; query := query d;
     loading := b; error := error d;
     sent := sent d; recommended := recommended d; logged := logged d |}.

Definition setError (e : option jsstring) (d : Dialog) : Dialog :=
  {| voices := voices d; mode := mode d; query := query d;
     loading := loading d; error := e;
     sent := sent d; recommended := recommended d; logged := logged d |}.

Definition console_error (d : Dialog) : Dialog :=
  {| voices := voices d; mode := mode d; query := query d;
     loading := loading d; error := error d;
     sent := sent d; recommended := recommended d; logged := S (logged d) |}.

Definition onRecommendation (rec : AiRecommendation) (d : Dialog) : Dialog :=
  {| voices := voices d; mode := mode d; query := query d;
     loading := loading d; error := error d;
     sent := sent d; recommended := recommended d ++ [rec]; logged := logged d |}.

Definition send (r : Request) (d : Dialog) : Dialog :=
  {| voices := voices d; mode := mode d; query := query d;
     loading := loading d; error := error d;
     sent := sent d ++ [r]; recommended := recommended d; logged := logged d |}.

Definition request_for (d : Dialog) : Request :=
  {| model := js "gemini-3-flash-preview";
     contents_mode := mode d;
     contents_query := query d;
     contents_voices := map simplify (voices d) |}.

Definition failure_message : jsstring :=
  js "Failed to analyze. Check your script or try again.".

(** [response.text || '{}'] *)
Definition text_or_braces (text : option jsstring) : jsstring :=
  match text with
  | Some s => if is_empty s then js "{}" else s
  | None => js "{}"
  end.

(** The argument of [onRecommendation], built from the parsed reply.
    The properties of the object literal are evaluated in source order;
    any of them may throw, and then no record is built. *)
Definition recommendation (m : Mode) (result : value) : completion AiRecommendation :=
  match m with
  | persona =>
      (voices <- get result (js "recommendedVoices") ;;
       instruction <- get result (js "systemInstruction") ;;
       sample <- get result (js "sampleText") ;;
       Normal {| voiceNames := or_else voices (VArray []);
                 systemInstruction := or_else instruction (VString []);
                 sampleText := or_else sample (VString []);
                 isMultiSpeaker := Some false;
                 scriptParts := None |})%completion
  | script =>
      (parts <- get result (js "scriptParts") ;;
       names <- array_map (or_else parts (VArray []))
                  (fun p => get p (js "voiceName")) ;;
       instruction <- get result (js "systemInstruction") ;;
       sample <- get result (js "sampleText") ;;
       parts' <- get result (js "scriptParts") ;;
       Normal {| voiceNames := VArray (Array_from (new_Set names));
                 systemInstruction := or_else instruction (VString []);
                 sampleText := or_else sample (VString []);
                 isMultiSpeaker := Some true;
                 scriptParts := Some (or_else parts' (VArray [])) |})%completion
  end.

(** The record in which every member took its default. *)
Definition defaults (m : Mode) : AiRecommendation :=
  match m with
  | persona =>
      {| voiceNames := VArray []; systemInstruction := VString [];
         sampleText := VString []; isMultiSpeaker := Some false;
         scriptParts := None |}
  | script =>
      {| voiceNames := VArray []; systemInstruction := VString [];
         sampleText := VString []; isMultiSpeaker := Some true;
         scriptParts := Some (VArray []) |}
  end.

(** A value of the [scriptParts] member that the script branch can map
    over: nothing (missing or falsy, so that [[]] stands in), or an array
    none of whose elements is [null]. *)
Definition usable_parts (v : value) : bool :=
  match or_else v (VArray []) with
  | VArray items => forallb readable items
  | _ => false
  end.

(** The dialog after a failed attempt that got as far as sending the
    request. *)
Definition failed_after_sending (d : Dialog) : Dialog :=
  setLoading false
    (setError (Some failure_message)
       (console_error (send (request_for d) (setError None (setLoading true d))))).

(** The dialog after an attempt that passed [rec] to the handler. *)
Definition succeeded_with (rec : AiRecommendation) (d : Dialog) : Dialog :=
  setLoading false
    (onRecommendation rec (send (request_for d) (setError None (setLoading true d)))).

Section Analyze.

(** The platform: [JSON.parse], which returns a value or throws a
    SyntaxError ([None]), and [new GoogleGenAI(...)], which returns a
    client or throws. *)
Variable JSON_parse : jsstring -> option value.
Variable GoogleGenAI : completion Client.

(** The body of the [try] block: the dialog after it, and whether it
    completed or threw. *)
Definition attempt (d : Dialog) : Dialog * completion unit :=
  match GoogleGenAI with
  | Throws => (d, Throws)
  | Normal ai =>
      let d := send (request_for d) d in
      match ai (request_for d) with
      | Rejected => (d, Throws)
      | Response text =>
          match JSON_parse (text_or_braces text) with
          | None => (d, Throws)
          | Some result =>
              match recommendation (mode d) result with
              | Throws => (d, Throws)
              | Normal rec => (onRecommendation rec d, Normal tt)
              end
          end
      end
  end.

Definition handleAnalyze (d : Dialog) : Dialog :=
  if is_empty (trim (query d)) then d
  else
    let d := setError None (setLoading true d) in
    let d :=
      match attempt d with
      | (d, Normal _) => d
      | (d, Throws) => setError (Some failure_message) (console_error d)
      end in
    setLoading false d.

End Analyze.

End VoiceFinder.

(** ** The result card (AiResultCard) *)

Module AiResultCard.
Import JS.

(** *** The copy action and its timers *)

(** The card's [copiedSection] cell, the texts written to the clipboard,
    and the event loop's side of it: the time now, in milliseconds, and
    the due times of the pending [setTimeout] callbacks.  Every callback
    the card registers is [() => setCopiedSection(null)]. *)
Record Card : Type := {
  copiedSection : option jsstring;
  clipboard : list jsstring;
  timeouts : list N;
  now : N
}.

Definition delay : N := 2000.

Definition setCopiedSection (s : option jsstring) (k : Card) : Card :=
  {| copiedSection := s; clipboard := clipboard k;
     timeouts := timeouts k; now := now k |}.

Definition writeText (text : jsstring) (k : Card) : Card :=
  {| copiedSection := copiedSection k; clipboard := clipboard k ++ [text];
     timeouts := timeouts k; now := now k |}.

Definition setTimeout (ms : N) (k : Card) : Card :=
  {| copiedSection := copiedSection k; clipboard := clipboard k;
     timeouts := timeouts k ++ [now k + ms]; now := now k |}.

Definition handleCopy (text section : jsstring) (k : Card) : Card :=
  setTimeout delay (setCopiedSection (Some section) (writeText text k)).

(** [ms] milliseconds pass: the callbacks that fall due run, each
    clearing the cell, and leave the queue. *)
Definition elapse (ms : N) (k : Card) : Card :=
  let t := now k + ms in
  let due := filter (fun at_ => at_ <=? t) (timeouts k) in
  let k' := fold_left (fun k _ => setCopiedSection None k) due k in
  {| copiedSection := copiedSection k'; clipboard := clipboard k';
     timeouts := filter (fun at_ => negb (at_ <=? t)) (timeouts k);
     now := t |}.

(** A card just mounted, at time [t]. *)
Definition mounted (t : N) : Card :=
  {| copiedSection := None; clipboard := []; timeouts := []; now := t |}.

(** *** The heading normalisation *)

(** [(##)] at the start of [s]; what follows the match. *)
Definition hashes (s : jsstring) : option jsstring :=
  match s with
  | a :: b :: t => if (a =? HASH) && (b =? HASH) then Some t else None
  | _ => None
  end.

(** [\s*(##)] at the start of [s].  The star is greedy: it takes a space
    when there is one, and gives it back when the rest fails to match. *)
Fixpoint spaces_hashes (s : jsstring) : option jsstring :=
  match s with
  | c :: r =>
      if is_space c then
        match spaces_hashes r with
        | Some t => Some t
        | None => hashes s
        end
      else hashes s
  | [] => hashes s
  end.

(** [([^\n])\s*(##)] at the start of [s]. *)
Definition match_here (s : jsstring) : option jsstring :=
  match s with
  | c :: r => if c =? LF then None else spaces_hashes r
  | [] => None
  end.

Definition inspect {A} (a : A) : {b : A | a = b} := exist _ a eq_refl.

(** [s.replace(/([^\n])\s*(##)/g, '$1\n\n$2')]: the leftmost match is
    replaced by its first group, two line feeds and the two hashes, and
    the search goes on after the match. *)
Equations? replace_headings (s : jsstring) : jsstring by wf (List.length s) lt :=
  replace_headings [] := [];
  replace_headings (c :: r) with inspect (match_here (c :: r)) := {
    | exist _ (Some t) _ := c :: LF :: LF :: HASH :: HASH :: replace_headings t;
    | exist _ None _ := c :: replace_headings r }.
Proof.
  assert (shorter : forall u v,
             spaces_hashes u = Some v -> (List.length v < S (List.length u))%nat).
  { induction u as [|x u IH]; intros v; simpl.
    - discriminate.
    - assert (tail : hashes (x :: u) = Some v ->
                     (List.length v < S (S (List.length u)))%nat).
      { unfold hashes. destruct u as [|y u]; [discriminate|].
        destruct ((x =? HASH) && (y =? HASH)); [|discriminate].
        intros [= <-]. simpl. lia. }
      destruct (is_space x); [|exact tail].
      destruct (spaces_hashes u) as [w|] eqn:E; [|exact tail].
      intros [= <-]. specialize (IH w eq_refl). lia. }
  unfold match_here in e. destruct (c =? LF); [discriminate|].
  apply shorter in e. simpl. lia.
Qed.

Definition formattedInstruction (systemInstruction : jsstring) : jsstring :=
  if is_empty systemInstruction then []
  else replace_headings systemInstruction.

End AiResultCard.

(** ** Sample data

    A two-voice catalogue, replies of the model as texts with the values
    [JSON.parse] gives for them, and dialogs ready to analyze. *)

Module Fixtures.
Import JS Types VoiceFinder.

Definition voice (n g : string) : Voice :=
  {| name := js n; pitch := js "Middle"; characteristics := [js "Firm"];
     audioSampleUrl := js "/samples/voice.wav"; fileUri := js "files/voice";
     analysis := {| gender := js g; analysis_pitch := js "Middle";
                    analysis_characteristics := [js "Firm"];
                    visualDescription := js "A studio portrait." |};
     imageUrl := js "/img/voice.png" |}.

Definition catalogue : list Voice := [voice "Kore" "Female"; voice "Puck" "Male"].

(** A dialog in mode [m] whose text area holds [q]; nothing has happened
    yet. *)
Definition dialog (m : Mode) (q : string) : Dialog :=
  {| voices := catalogue; mode := m; query := js q;
     loading := false; error := None;
     sent := []; recommended := []; logged := 0%nat |}.

(** The same dialog showing the recommendation [shown] of an earlier
    analysis. *)
Definition dialog_showing (shown : AiRecommendation) (m : Mode) (q : string) : Dialog :=
  {| voices := catalogue; mode := m; query := js q;
     loading := false; error := None;
     sent := []; recommended := [shown]; logged := 0%nat |}.

(** A string literal of a JSON text: the characters between two quotes. *)
Definition quoted (s : string) : jsstring := [34] ++ js s ++ [34].

Definition member (k v : string) : jsstring := quoted k ++ js ":" ++ quoted v.

Definition part_text (s t v : string) : jsstring :=
  js "{" ++ member "speaker" s ++ js "," ++ member "text" t ++ js ","
  ++ member "voiceName" v ++ js "}".

Definition alex_1 : ScriptPart :=
  {| speaker := js "Alex"; text := js "We found it."; voiceName := js "Kore" |}.
Definition sarah : ScriptPart :=
  {| speaker := js "Sarah"; text := js "Be careful."; voiceName := js "Puck" |}.
Definition alex_2 : ScriptPart :=
  {| speaker := js "Alex"; text := js "Stay close."; voiceName := js "Kore" |}.

(** A reply in script mode: three turns, two voices. *)
Definition script_reply_text : jsstring :=
  js "{" ++ quoted "scriptParts" ++ js ":["
  ++ part_text "Alex" "We found it." "Kore" ++ js ","
  ++ part_text "Sarah" "Be careful." "Puck" ++ js ","
  ++ part_text "Alex" "Stay close." "Kore" ++ js "],"
  ++ member "systemInstruction" "Tense and hushed.## Pacing" ++ js ","
  ++ member "sampleText" "We found it." ++ js "}".

Definition script_reply : value :=
  VObject [(js "scriptParts", VArray (map part_value [alex_1; sarah; alex_2]));
           (js "systemInstruction", VString (js "Tense and hushed.## Pacing"));
           (js "sampleText", VString (js "We found it."))].

(** A reply in persona mode that lacks two of the three required
    members. *)
Definition partial_reply_text : jsstring :=
  js "{" ++ member "sampleText" "Hello." ++ js "}".

Definition partial_reply : value :=
  VObject [(js "sampleText", VString (js "Hello."))].

(** A reply in script mode whose one script part is [null]. *)
Definition null_part_text : jsstring :=
  js "{" ++ quoted "scriptParts" ++ js ":[null]}".

Definition null_part : value :=
  VObject [(js "scriptParts", VArray [VNull])].

(** [JSON.parse] on the texts above and on the texts ["{}"] and ["null"];
    every other text used in the examples is not JSON. *)
Definition parse (t : jsstring) : option value :=
  if eqs t (js "{}") then Some (VObject [])
  else if eqs t (js "null") then Some VNull
  else if eqs t null_part_text then Some null_part
  else if eqs t script_reply_text then Some script_reply
  else if eqs t partial_reply_text then Some partial_reply
  else None.

(** A client whose every call resolves to a response of text [t]. *)
Definition replying (t : option jsstring) : completion Client :=
  Normal (fun _ => Response t).

(** The record the script reply above is normalised into. *)
Definition script_record : AiRecommendation :=
  {| voiceNames := VArray [VString (js "Kore"); VString (js "Puck")];
     systemInstruction := VString (js "Tense and hushed.## Pacing");
     sampleText := VString (js "We found it.");
     isMultiSpeaker := Some true;
     scriptParts := Some (VArray (map part_value [alex_1; sarah; alex_2])) |}.

(** The record the partial reply above is normalised into. *)
Definition partial_record : AiRecommendation :=
  {| voiceNames := VArray [];
     systemInstruction := VString [];
     sampleText := VString (js "Hello.");
     isMultiSpeaker := Some false;
     scriptParts := None |}.

(** The record an earlier analysis left on display. *)
Definition earlier : AiRecommendation :=
  {| voiceNames := VArray [VString (js "Kore")];
     systemInstruction := VString (js "Warm and slow.");
     sampleText := VString (js "Welcome back.");
     isMultiSpeaker := Some false;
     scriptParts := None |}.

End Fixtures.

(** ** The response schema (VoiceFinder) *)

Module ResponseSchema.
Import JS VoiceFinder.

(** The descriptors the dialog builds from [Type.STRING], [Type.ARRAY]
    and [Type.OBJECT]. *)
#[local] Set Warnings "-register-all".
Inductive Schema : Type :=
| STRING (description : option jsstring)
| ARRAY (items : Schema)
| OBJECT (properties : list (jsstring * Schema)) (required : list jsstring).
#[local] Set Warnings "+register-all".

(** The [items] of [scriptParts]. *)
Definition script_part : Schema :=
  OBJECT [(js "speaker", STRING None);
          (js "text", STRING None);
          (js "voiceName", STRING None)]
         [js "speaker"; js "text"; js "voiceName"].

(** The [schema] constant of [handleAnalyze], by mode. *)
Definition schema (m : Mode) : Schema :=
  OBJECT
    (match m with
     | persona =>
         [(js "recommendedVoices", ARRAY (STRING None));
          (js "systemInstruction",
           STRING (Some (js "Markdown formatted director's notes including emotion and pacing details.")));
          (js "sampleText", STRING None)]
     | script =>
         [(js "scriptParts", ARRAY script_part);
          (js "systemInstruction",
           STRING (Some (js "Detailed Markdown notes on the scene's emotional arc, character dynamics, and pacing instructions.")));
          (js "sampleText", STRING None)]
     end)
    (match m with
     | persona => [js "recommendedVoices"; js "systemInstruction"; js "sampleText"]
     | script => [js "scriptParts"; js "systemInstruction"; js "sampleText"]
     end).

Definition required (s : Schema) : list jsstring :=
  match s with
  | OBJECT _ r => r
  | _ => []
  end.

End ResponseSchema.

(** ** The dialog between its events (VoiceFinder) *)

Module FinderSession.
Import JS Types VoiceFinder.

Definition setQuery (q : jsstring) (d : Dialog) : Dialog :=
  {| voices := voices d; mode := mode d; query := q;
     loading := loading d; error := error d;
     sent := sent d; recommended := recommended d; logged := logged d |}.

Definition setMode (m : Mode) (d : Dialog) : Dialog :=
  {| voices := voices d; mode := m; query := query d;
     loading := loading d; error := error d;
     sent := sent d; recommended := recommended d; logged := logged d |}.

(** The quick-fill chips of a mode: label and text. *)
Definition examples (m : Mode) : list (jsstring * jsstring) :=
  match m with
  | persona =>
      [(js "Narrator",
        js "A warm, deep male voice with a British accent for a nature documentary.");
       (js "Heroine",
        js "An energetic young female with a confident and slightly raspy tone.")]
  | script =>
      [(js "Dialogue",
        js "Alex: We found it. The secret entrance." ++ [LF]
        ++ js "Sarah: Be careful, we don't know what's inside.");
       (js "Announcement",
        js "PA System: Attention all passengers. The train to London is now boarding.")]
  end.

(** The [disabled] attribute of the Analyze button. *)
Definition disabled (d : Dialog) : bool :=
  loading d || is_empty (trim (query d)).

Definition hint : jsstring :=
  js "AI will analyze character emotions and scene pacing".

(** The line under the text area: [error || "AI will analyze ..."]. *)
Definition status (d : Dialog) : jsstring :=
  match error d with
  | Some e => if is_empty e then hint else e
  | None => hint
  end.

(** A call of [handleAnalyze] suspended at its [await]: the mode its
    closure captured, the client it constructed and the request it
    sent. *)
Record Call : Type := {
  call_mode : Mode;
  call_ai : Client;
  call_request : Request
}.

(** The dialog, the calls of [handleAnalyze] that await their reply, and
    the number of calls of [onClose]. *)
Record Session : Type := {
  dialog : Dialog;
  awaiting : list Call;
  closes : nat
}.

Definition idle (d : Dialog) : Session :=
  {| dialog := d; awaiting := []; closes := 0%nat |}.

Definition with_dialog (d : Dialog) (s : Session) : Session :=
  {| dialog := d; awaiting := awaiting s; closes := closes s |}.

Definition onClose (s : Session) : Session :=
  {| dialog := dialog s; awaiting := awaiting s; closes := S (closes s) |}.

(** What the user and the event loop do to the dialog: typing, the two
    mode buttons, a chip, the Analyze button, the close button or the
    backdrop, a key, and the reply to the oldest pending call. *)
Inductive Event : Type :=
| Input (q : jsstring)
| PickMode (m : Mode)
| PickExample (i : nat)
| ClickAnalyze
| ClickClose
| KeyDown (key : jsstring)
| Settle.

(** The [catch] block. *)
Definition caught (d : Dialog) : Dialog :=
  setError (Some failure_message) (console_error d).

Section Events.

Variable JSON_parse : jsstring -> option value.
Variable GoogleGenAI : completion Client.

(** [handleAnalyze] from its call to its [await]: every statement up to
    and including the call of [generateContent].  When the constructor
    throws, the [catch] and [finally] blocks run at once. *)
Definition start (s : Session) : Session :=
  let d := dialog s in
  if is_empty (trim (query d)) then s
  else
    let d1 := setError None (setLoading true d) in
    match GoogleGenAI with
    | Throws => with_dialog (setLoading false (caught d1)) s
    | Normal ai =>
        {| dialog := send (request_for d1) d1;
           awaiting := awaiting s ++ [{| call_mode := mode d; call_ai := ai;
                                         call_request := request_for d1 |}];
           closes := closes s |}
    end.

(** [handleAnalyze] from its [await] on, run on the dialog as it is when
    the reply arrives; [mode] is the one the closure captured. *)
Definition resume (c : Call) (d : Dialog) : Dialog :=
  let d :=
    match call_ai c (call_request c) with
    | Rejected => caught d
    | Response text =>
        match JSON_parse (text_or_braces text) with
        | None => caught d
        | Some result =>
            match recommendation (call_mode c) result with
            | Throws => caught d
            | Normal rec => onRecommendation rec d
            end
        end
    end in
  setLoading false d.

Definition step (e : Event) (s : Session) : Session :=
  match e with
  | Input q => with_dialog (setQuery q (dialog s)) s
  | PickMode m => with_dialog (setMode m (dialog s)) s
  | PickExample i =>
      match nth_error (examples (mode (dialog s))) i with
      | Some (_, text) => with_dialog (setQuery text (dialog s)) s
      | None => s
      end
  | ClickAnalyze => if disabled (dialog s) then s else start s
  | ClickClose => onClose s
  | KeyDown key => if eqs key (js "Escape") then onClose s else s
  | Settle =>
      match awaiting s with
      | [] => s
      | c :: rest =>
          {| dialog := resume c (dialog s); awaiting := rest; closes := closes s |}
      end
  end.

Definition run (events : list Event) (s : Session) : Session :=
  fold_left (fun s e => step e s) events s.

End Events.

(** The analysis of [d] gets as far as a parsed reply: the query is not
    blank, the client is constructed, the call resolves and its text, or
    ["{}"] in its place, parses to [result]. *)
Definition replied (JSON_parse : jsstring -> option value)
  (GoogleGenAI : completion Client) (d : Dialog) (result : value) : Prop :=
  is_empty (trim (query d)) = false /\
  exists ai text,
    GoogleGenAI = Normal ai /\
    ai (request_for d) = Response text /\
    JSON_parse (text_or_braces text) = Some result.

(** No call is pending, or one is and the loading flag is up. *)
Definition one_call_at_most (s : Session) : Prop :=
  awaiting s = [] \/ (exists c, awaiting s = [c]) /\ loading (dialog s) = true.

(** The call [c] is pending, the flag is up, and the fields of the
    dialog that the call will write are still those of [d0]. *)
Definition in_flight (c : Call) (d0 : Dialog) (s : Session) : Prop :=
  awaiting s = [c] /\
  loading (dialog s) = true /\
  error (dialog s) = error d0 /\
  sent (dialog s) = sent d0 /\
  recommended (dialog s) = recommended d0 /\
  logged (dialog s) = logged d0.

(** An event other than the arrival of a reply. *)
Definition quiet (e : Event) : bool :=
  match e with
  | Settle => false
  | _ => true
  end.

End FinderSession.

(** ** What the card shows (AiResultCard) *)

Module CardView.
Import JS Types AiResultCard.

(** The [formattedInstruction] memo on what the record holds: nothing
    for a falsy instruction, the replacement for a string; any other
    value has no [replace] method and the call throws. *)
Definition instruction_memo (result : AiRecommendation) : completion jsstring :=
  if truthy (systemInstruction result) then
    match systemInstruction result with
    | VString text => Normal (replace_headings text)
    | _ => Throws
    end
  else Normal [].

(** What one script part contributes to the list: the three values the
    row interpolates, [part.speaker], [part.voiceName] and [part.text].
    How the renderer prints a value is not part of the card. *)
Record Row : Type := {
  row_speaker : value;
  row_voiceName : value;
  row_text : value
}.

Definition row (part : value) : completion Row :=
  (s <- get part (js "speaker") ;;
   v <- get part (js "voiceName") ;;
   t <- get part (js "text") ;;
   Normal {| row_speaker := s; row_voiceName := v; row_text := t |})%completion.

(** The right-hand column: the script rows when the record is marked
    multi-speaker, the quoted sample text otherwise. *)
Inductive Column : Type :=
| Rows (rows : list Row)
| Quote (text : value).

(** [result.scriptParts?.map(...)]: nothing for an absent, [undefined]
    or [null] property; a value that is not an array has no [map]. *)
Definition column (result : AiRecommendation) : completion Column :=
  if match isMultiSpeaker result with Some b => b | None => false end then
    match scriptParts result with
    | None | Some VUndefined | Some VNull => Normal (Rows [])
    | Some (VArray parts) => (rows <- mapM row parts ;; Normal (Rows rows))%completion
    | Some _ => Throws
    end
  else Normal (Quote (sampleText result)).

(** The title of the card. *)
Definition title (result : AiRecommendation) : jsstring :=
  if match isMultiSpeaker result with Some b => b | None => false end
  then js "AI Script Analysis" else js "AI Suggested Persona".

(** What the user does to the card and what time does: a copy of a
    section, and time passing. *)
Inductive CardEvent : Type :=
| Copy (text section : jsstring)
| Wait (ms : N).

Definition card_step (e : CardEvent) (k : Card) : Card :=
  match e with
  | Copy text section => handleCopy text section k
  | Wait ms => elapse ms k
  end.

Definition card_run (events : list CardEvent) (k : Card) : Card :=
  fold_left (fun k e => card_step e k) events k.



(** Every pending timer is due within the delay. *)
Definition bounded (k : Card) : Prop :=
  Forall (fun due => due <= now k + delay) (timeouts k).

(** The code units of a text that are not white space. *)
Definition visible (s : jsstring) : jsstring :=
  filter (fun c => negb (is_space c)) s.

(** Two hashes in a row somewhere in the text. *)
Fixpoint has_marker (s : jsstring) : bool :=
  match s with
  | a :: r =>
      match r with
      | b :: _ => ((a =? HASH) && (b =? HASH)) || has_marker r
      | [] => false
      end
  | [] => false
  end.

End CardView.

(** ** More sample data *)

Module MoreFixtures.
Import JS Types VoiceFinder.

(** The partial reply of [Fixtures] with a member the schema does not
    name. *)
Definition annotated_reply_text : jsstring :=
  js "{" ++ Fixtures.member "sampleText" "Hello." ++ js ","
  ++ Fixtures.member "note" "draft" ++ js "}".

Definition annotated_reply : value :=
  VObject [(js "sampleText", VString (js "Hello."));
           (js "note", VString (js "draft"))].

(** A reply in script mode whose instruction is a number. *)
Definition numbered_reply_text : jsstring :=
  js "{" ++ Fixtures.quoted "scriptParts" ++ js ":[" ++
  Fixtures.part_text "Alex" "We found it." "Kore" ++ js "]," ++
  Fixtures.quoted "systemInstruction" ++ js ":7}".

Definition numbered_reply : value :=
  VObject [(js "scriptParts", VArray [part_value Fixtures.alex_1]);
           (js "systemInstruction",
            VNumber (S754_finite false 7 0))].

(** The record the numbered reply is normalised into. *)
Definition numbered_record : AiRecommendation :=
  {| voiceNames := VArray [VString (js "Kore")];
     systemInstruction := VNumber (S754_finite false 7 0);
     sampleText := VString [];
     isMultiSpeaker := Some true;
     scriptParts := Some (VArray [part_value Fixtures.alex_1]) |}.

(** A reply in script mode whose second part has no voice name. *)
Definition unnamed_part : value :=
  VObject [(js "speaker", VString (js "Crowd")); (js "text", VString (js "Look!"))].

Definition unnamed_reply_text : jsstring :=
  js "{" ++ Fixtures.quoted "scriptParts" ++ js ":["
  ++ Fixtures.part_text "Alex" "We found it." "Kore" ++ js ","
  ++ js "{" ++ Fixtures.member "speaker" "Crowd" ++ js ","
  ++ Fixtures.member "text" "Look!" ++ js "},"
  ++ Fixtures.part_text "Sarah" "Be careful." "Puck" ++ js ","
  ++ Fixtures.part_text "Alex" "Stay close." "Kore" ++ js "]}".

Definition unnamed_reply : value :=
  VObject [(js "scriptParts",
            VArray [part_value Fixtures.alex_1; unnamed_part;
                    part_value Fixtures.sarah; part_value Fixtures.alex_2])].

(** The record the reply with the unnamed part is normalised into. *)
Definition unnamed_record : AiRecommendation :=
  {| voiceNames := VArray [VString (js "Kore"); VUndefined; VString (js "Puck")];
     systemInstruction := VString [];
     sampleText := VString [];
     isMultiSpeaker := Some true;
     scriptParts :=
       Some (VArray [part_value Fixtures.alex_1; unnamed_part;
                     part_value Fixtures.sarah; part_value Fixtures.alex_2]) |}.

(** [JSON.parse] on these texts and on those of [Fixtures]. *)
Definition parse (t : jsstring) : option value :=
  if eqs t annotated_reply_text then Some annotated_reply
  else if eqs t numbered_reply_text then Some numbered_reply
  else if eqs t unnamed_reply_text then Some unnamed_reply
  else Fixtures.parse t.

End MoreFixtures.

(** * Properties *)

Import JS Types VoiceFinder AiResultCard.

(** ** Strings and trimming *)

Lemma eqs_eq (a b : jsstring) : eqs a b = true <-> a = b.
Proof.
  revert b. induction a as [|x a IH]; destruct b as [|y b]; simpl;
    try (split; [discriminate | congruence]).
  - tauto.
  - rewrite andb_true_iff, N.eqb_eq, IH. split.
    + intros [-> ->]. reflexivity.
    + intros [= -> ->]. tauto.
Qed.

Lemma eqs_refl (a : jsstring) : eqs a a = true.
Proof. apply eqs_eq. reflexivity. Qed.

Lemma trimStart_blank (s : jsstring) : blank s -> trimStart s = [].
Proof.
  induction 1 as [|c s Hc _ IH]; simpl.
  - reflexivity.
  - rewrite Hc. exact IH.
Qed.

Lemma trim_blank (s : jsstring) : blank s -> trim s = [].
Proof.
  intros H. unfold trim, trimEnd. rewrite (trimStart_blank s H). reflexivity.
Qed.

Lemma trimStart_nil_blank (s : jsstring) : trimStart s = [] -> blank s.
Proof.
  induction s as [|c s IH]; simpl.
  - constructor.
  - destruct (is_space c) eqn:E; [|discriminate].
    intros H. constructor; [exact E | exact (IH H)].
Qed.

Lemma trimStart_head (s : jsstring) :
  match trimStart s with
  | [] => True
  | c :: _ => is_space c = false
  end.
Proof.
  induction s as [|c s IH]; simpl; [exact I|].
  destruct (is_space c) eqn:E; [exact IH | exact E].
Qed.

(** The converse of [trim_blank]: only blank strings trim to nothing. *)
Lemma trim_nil_blank (s : jsstring) : trim s = [] -> blank s.
Proof.
  unfold trim, trimEnd. intros H.
  apply (f_equal (@rev N)) in H. rewrite rev_involutive in H. simpl in H.
  apply trimStart_nil_blank in H.
  apply trimStart_nil_blank.
  pose proof (trimStart_head s) as Hh.
  destruct (trimStart s) as [|c r]; [reflexivity|].
  exfalso. unfold blank in H. rewrite Forall_forall in H.
  assert (Hc : is_space c = true) by (apply H, in_rev; rewrite rev_involutive; left; reflexivity).
  congruence.
Qed.

(** ** The analyze action, case by case *)

Section AnalyzeFacts.

Variable JSON_parse : jsstring -> option value.
Variable GoogleGenAI : completion Client.

Lemma handleAnalyze_blank (d : Dialog) :
  trim (query d) = [] -> handleAnalyze JSON_parse GoogleGenAI d = d.
Proof.
  intros H. unfold handleAnalyze. rewrite H. reflexivity.
Qed.

Lemma handleAnalyze_success (d : Dialog) ai text result rec :
  is_empty (trim (query d)) = false ->
  GoogleGenAI = Normal ai ->
  ai (request_for d) = Response text ->
  JSON_parse (text_or_braces text) = Some result ->
  recommendation (mode d) result = Normal rec ->
  handleAnalyze JSON_parse GoogleGenAI d = succeeded_with rec d.
Proof.
  intros Hq Hai Hr Hp Hrec. unfold handleAnalyze, attempt.
  rewrite Hq, Hai. cbn. change (request_for _) with (request_for d).
  rewrite Hr, Hp, Hrec. reflexivity.
Qed.

Lemma handleAnalyze_unparsed (d : Dialog) ai text :
  is_empty (trim (query d)) = false ->
  GoogleGenAI = Normal ai ->
  ai (request_for d) = Response text ->
  JSON_parse (text_or_braces text) = None ->
  handleAnalyze JSON_parse GoogleGenAI d = failed_after_sending d.
Proof.
  intros Hq Hai Hr Hp. unfold handleAnalyze, attempt.
  rewrite Hq, Hai. cbn. change (request_for _) with (request_for d).
  rewrite Hr, Hp. reflexivity.
Qed.

Lemma handleAnalyze_unusable (d : Dialog) ai text result :
  is_empty (trim (query d)) = false ->
  GoogleGenAI = Normal ai ->
  ai (request_for d) = Response text ->
  JSON_parse (text_or_braces text) = Some result ->
  recommendation (mode d) result = Throws ->
  handleAnalyze JSON_parse GoogleGenAI d = failed_after_sending d.
Proof.
  intros Hq Hai Hr Hp Hrec. unfold handleAnalyze, attempt.
  rewrite Hq, Hai. cbn. change (request_for _) with (request_for d).
  rewrite Hr, Hp, Hrec. reflexivity.
Qed.

Lemma not_longer {A} (l : list A) (x : A) : l <> l ++ [x].
Proof.
  intros H. apply (f_equal (@List.length A)) in H.
  rewrite length_app in H. simpl in H. lia.
Qed.

(** A record reaches the handler only along the one successful path. *)
Lemma handleAnalyze_delivers (d : Dialog) (rec : AiRecommendation) :
  recommended (handleAnalyze JSON_parse GoogleGenAI d) = recommended d ++ [rec] ->
  exists ai text result,
    is_empty (trim (query d)) = false /\
    GoogleGenAI = Normal ai /\
    ai (request_for d) = Response text /\
    JSON_parse (text_or_braces text) = Some result /\
    recommendation (mode d) result = Normal rec.
Proof.
  unfold handleAnalyze, attempt.
  destruct (is_empty (trim (query d))) eqn:Hq.
  { intros H. destruct (not_longer _ _ H). }
  destruct GoogleGenAI as [ai|] eqn:Hai; cbn.
  2:{ intros H. destruct (not_longer _ _ H). }
  change (request_for _) with (request_for d).
  destruct (ai (request_for d)) as [|text] eqn:Hr; cbn.
  { intros H. destruct (not_longer _ _ H). }
  destruct (JSON_parse (text_or_braces text)) as [result|] eqn:Hp; cbn.
  2:{ intros H. destruct (not_longer _ _ H). }
  destruct (recommendation (mode d) result) as [rec'|] eqn:Hrec; cbn.
  2:{ intros H. destruct (not_longer _ _ H). }
  intros H. apply app_inv_head in H. injection H as <-.
  exists ai, text, result. repeat split; assumption.
Qed.

End AnalyzeFacts.

(** ** Sets of values *)

Lemma finite_same (s1 s2 : bool) (m1 m2 : positive) (e1 e2 : Z) :
  SFeqb (S754_finite s1 m1 e1) (S754_finite s2 m2 e2) = true <->
  S754_finite s1 m1 e1 = S754_finite s2 m2 e2.
Proof.
  unfold SFeqb, SFcompare. split.
  - destruct s1, s2; try discriminate;
      destruct (Z.compare_spec e1 e2) as [->| |]; try discriminate;
      change (Pos.compare_cont Eq m1 m2) with (Pos.compare m1 m2);
      destruct (Pos.compare_spec m1 m2) as [->| |]; try discriminate; reflexivity.
  - intros [= -> -> ->]. rewrite Z.compare_refl.
    change (Pos.compare_cont Eq m2 m2) with (Pos.compare m2 m2).
    rewrite Pos.compare_refl. destruct s2; reflexivity.
Qed.

Lemma number_same_spec (x y : spec_float) :
  number_same x y = true <-> stored (VNumber x) = stored (VNumber y).
Proof.
  destruct x as [s1| s1 | | s1 m1 e1], y as [s2| s2 | | s2 m2 e2];
    try (cbn; split; [discriminate | congruence]);
    try (cbn; split; reflexivity);
    cbn [number_same stored].
  8: { rewrite finite_same. split; congruence. }
  all: try (destruct s1); try (destruct s2); cbn;
    split; try discriminate; try reflexivity; congruence.
Qed.

(** Two values are the same to a [Set] when the first is a primitive and
    the set would store the same for both. *)
Lemma same_value_zero_spec (a b : value) :
  same_value_zero a b = true <-> primitive a = true /\ stored a = stored b.
Proof.
  split.
  - destruct a, b; cbn [same_value_zero]; try discriminate; intros H;
      (split; [reflexivity|]).
    + reflexivity.
    + reflexivity.
    + apply eqb_prop in H. subst. reflexivity.
    + apply number_same_spec, H.
    + apply eqs_eq in H. subst. reflexivity.
  - intros [Hp H].
    destruct a as [| |x|x|x|x|x]; try discriminate Hp;
      destruct b as [| |y|y|y|y|y];
      try discriminate H;
      try (destruct y; discriminate H);
      try (destruct x; discriminate H);
      cbn [same_value_zero].
    + reflexivity.
    + reflexivity.
    + injection H as ->. apply eqb_reflx.
    + apply number_same_spec, H.
    + injection H as ->. apply eqs_refl.
Qed.

Lemma stored_stored (v : value) : stored (stored v) = stored v.
Proof. destruct v as [| |x|[]|x|x|x]; reflexivity. Qed.

Lemma primitive_stored (v : value) : primitive (stored v) = primitive v.
Proof. destruct v as [| |x|[]|x|x|x]; reflexivity. Qed.

Lemma same_value_zero_stored (a b : value) :
  same_value_zero (stored a) b = same_value_zero a b.
Proof.
  apply eq_true_iff_eq. rewrite !same_value_zero_spec, primitive_stored, stored_stored.
  reflexivity.
Qed.

Lemma same_value_zero_sym (a b : value) :
  same_value_zero a b = same_value_zero b a.
Proof.
  apply eq_true_iff_eq. rewrite !same_value_zero_spec. split; intros [Hp H].
  - split; [|congruence]. rewrite <- primitive_stored, <- H, primitive_stored. exact Hp.
  - split; [|congruence]. rewrite <- primitive_stored, <- H, primitive_stored. exact Hp.
Qed.

Lemma all_different_snoc (l : list value) (x : value) :
  all_different l ->
  existsb (same_value_zero x) l = false ->
  all_different (l ++ [stored x]).
Proof.
  intros Hl Hx.
  assert (Hnew : forall w, In w l ->
            same_value_zero (stored x) w = false /\ same_value_zero w (stored x) = false).
  { intros w Hw. rewrite (same_value_zero_sym w), same_value_zero_stored.
    assert (H : same_value_zero x w = false).
    { destruct (same_value_zero x w) eqn:E; [|reflexivity].
      rewrite <- Hx. symmetry. apply existsb_exists. exists w. tauto. }
    tauto. }
  intros i j a b Hij Ha Hb.
  assert (Hi : (i < List.length (l ++ [stored x]))%nat) by (apply nth_error_Some; congruence).
  assert (Hj : (j < List.length (l ++ [stored x]))%nat) by (apply nth_error_Some; congruence).
  rewrite length_app in Hi, Hj. simpl in Hi, Hj.
  destruct (Nat.eq_dec i (List.length l)) as [->|Hi'];
    destruct (Nat.eq_dec j (List.length l)) as [->|Hj']; try lia.
  - rewrite nth_error_app2, Nat.sub_diag in Ha by lia. injection Ha as <-.
    rewrite nth_error_app1 in Hb by lia.
    exact (proj1 (Hnew b (nth_error_In _ _ Hb))).
  - rewrite nth_error_app2, Nat.sub_diag in Hb by lia. injection Hb as <-.
    rewrite nth_error_app1 in Ha by lia.
    exact (proj2 (Hnew a (nth_error_In _ _ Ha))).
  - rewrite nth_error_app1 in Ha, Hb by lia. exact (Hl i j a b Hij Ha Hb).
Qed.

Lemma fold_Set_add_spec (l acc : list value) :
  all_different acc ->
  Forall (fun w => stored w = w) acc ->
  all_different (fold_left Set_add l acc) /\
  (forall x, In x l -> In (stored x) (fold_left Set_add l acc)) /\
  (forall w, In w acc -> In w (fold_left Set_add l acc)) /\
  (forall y, In y (fold_left Set_add l acc) ->
             In y acc \/ exists x, In x l /\ y = stored x).
Proof.
  revert acc. induction l as [|x l IH]; intros acc Hd Hs; cbn [fold_left].
  - repeat split; try tauto. intros x [].
  - assert (Hd' : all_different (Set_add acc x)).
    { unfold Set_add. destruct (existsb (same_value_zero x) acc) eqn:E;
        [exact Hd | apply all_different_snoc; assumption]. }
    assert (Hs' : Forall (fun w => stored w = w) (Set_add acc x)).
    { unfold Set_add. destruct (existsb (same_value_zero x) acc); [exact Hs|].
      apply Forall_app. split; [exact Hs|]. constructor; [apply stored_stored | constructor]. }
    assert (Hx : In (stored x) (Set_add acc x)).
    { unfold Set_add. destruct (existsb (same_value_zero x) acc) eqn:E.
      - apply existsb_exists in E. destruct E as (w & Hw & E).
        apply same_value_zero_spec in E. destruct E as [_ E]. rewrite E.
        rewrite Forall_forall in Hs. rewrite (Hs w Hw). exact Hw.
      - apply in_or_app. right. left. reflexivity. }
    assert (Hacc : forall w, In w acc -> In w (Set_add acc x)).
    { intros w Hw. unfold Set_add. destruct (existsb (same_value_zero x) acc);
        [exact Hw | apply in_or_app; left; exact Hw]. }
    assert (Hback : forall y, In y (Set_add acc x) -> In y acc \/ y = stored x).
    { intros y. unfold Set_add. destruct (existsb (same_value_zero x) acc); [tauto|].
      intros H. apply in_app_or in H. destruct H as [H|[<-|[]]]; tauto. }
    destruct (IH (Set_add acc x) Hd' Hs') as (H1 & H2 & H3 & H4).
    split; [exact H1|]. split; [|split].
    + intros y [<-|Hy]; [apply H3, Hx | apply H2, Hy].
    + intros w Hw. apply H3, Hacc, Hw.
    + intros y Hy. destruct (H4 y Hy) as [H|(x' & Hx' & ->)].
      * destruct (Hback y H) as [H'| ->]; [left; exact H'|].
        right. exists x. split; [left; reflexivity | reflexivity].
      * right. exists x'. split; [right; exact Hx' | reflexivity].
Qed.

(** ** Sets of strings *)

Lemma existsb_eqs (x : jsstring) (l : list jsstring) :
  existsb (eqs x) l = true <-> In x l.
Proof.
  rewrite existsb_exists. split.
  - intros [y [Hy E]]. apply eqs_eq in E. subst. exact Hy.
  - intros H. exists x. split; [exact H | apply eqs_refl].
Qed.

Lemma Set_add_string (acc : list jsstring) (x : jsstring) :
  Set_add (map VString acc) (VString x) = map VString (add_string acc x).
Proof.
  unfold Set_add, add_string.
  assert (E : existsb (same_value_zero (VString x)) (map VString acc)
              = existsb (eqs x) acc).
  { induction acc as [|y acc IH]; simpl; [reflexivity | rewrite IH; reflexivity]. }
  rewrite E. destruct (existsb (eqs x) acc).
  - reflexivity.
  - rewrite map_app. reflexivity.
Qed.

Lemma fold_Set_add_strings (l acc : list jsstring) :
  fold_left Set_add (map VString l) (map VString acc)
  = map VString (fold_left add_string l acc).
Proof.
  revert acc. induction l as [|x l IH]; intros acc; simpl.
  - reflexivity.
  - rewrite Set_add_string. apply IH.
Qed.

Lemma new_Set_strings (l : list jsstring) :
  new_Set (map VString l) = map VString (distinct l).
Proof. exact (fold_Set_add_strings l []). Qed.

Lemma distinct_snoc (l : list jsstring) (x : jsstring) :
  distinct (l ++ [x]) = add_string (distinct l) x.
Proof. unfold distinct. rewrite fold_left_app. reflexivity. Qed.

Lemma first_index_in (a : jsstring) (l m : list jsstring) :
  In a l ->
  first_index a (l ++ m) = first_index a l /\ (first_index a l < List.length l)%nat.
Proof.
  induction l as [|y l IH]; simpl; [tauto|].
  intros H. destruct (eqs a y) eqn:E.
  - split; [reflexivity | lia].
  - destruct H as [H|H].
    + subst. rewrite eqs_refl in E. discriminate.
    + destruct (IH H) as [-> Hlt]. split; [reflexivity | lia].
Qed.

Lemma first_index_fresh (x : jsstring) (l : list jsstring) :
  ~ In x l -> first_index x (l ++ [x]) = List.length l.
Proof.
  induction l as [|y l IH]; simpl; intros H.
  - rewrite eqs_refl. reflexivity.
  - destruct (eqs x y) eqn:E.
    + apply eqs_eq in E. subst. tauto.
    + rewrite IH; [reflexivity | tauto].
Qed.

(** What [distinct] keeps: every string of the list once, in the order
    in which the strings first occur. *)
Lemma distinct_spec (l : list jsstring) :
  NoDup (distinct l) /\
  (forall s, In s (distinct l) <-> In s l) /\
  (forall i j a b,
      nth_error (distinct l) i = Some a ->
      nth_error (distinct l) j = Some b ->
      (i < j)%nat ->
      (first_index a l < first_index b l)%nat).
Proof.
  induction l as [|x l [Hnd [Hin Hord]]] using rev_ind.
  - split; [constructor | split; [tauto|]].
    intros [|i] j a b H; discriminate.
  - rewrite distinct_snoc. unfold add_string.
    destruct (existsb (eqs x) (distinct l)) eqn:E.
    + apply existsb_eqs in E. repeat split.
      * exact Hnd.
      * intros H. apply in_or_app. left. apply Hin, H.
      * intros H. apply in_app_or in H. destruct H as [H|[<-|[]]];
          [apply Hin, H | exact E].
      * intros i j a b Ha Hb Hij.
        assert (Ia : In a l) by (apply Hin; eapply nth_error_In; eassumption).
        assert (Ib : In b l) by (apply Hin; eapply nth_error_In; eassumption).
        destruct (first_index_in a l [x] Ia) as [-> _].
        destruct (first_index_in b l [x] Ib) as [-> _].
        eapply Hord; eassumption.
    + assert (Hx : ~ In x (distinct l)).
      { intros H. apply existsb_eqs in H. congruence. }
      assert (Hx' : ~ In x l) by (intros H; apply Hx, Hin, H).
      repeat split.
      * apply NoDup_app; [exact Hnd | repeat constructor; tauto |].
        intros a Ha [<-|[]]. exact (Hx Ha).
      * intros H. apply in_app_or in H. apply in_or_app.
        destruct H as [H|H]; [left; apply Hin, H | right; exact H].
      * intros H. apply in_app_or in H. apply in_or_app.
        destruct H as [H|H]; [left; apply Hin, H | right; exact H].
      * intros i j a b Ha Hb Hij.
        assert (Hj : (j < List.length (distinct l ++ [x]))%nat)
          by (apply nth_error_Some; congruence).
        rewrite length_app in Hj. simpl in Hj.
        rewrite nth_error_app1 in Ha by lia.
        assert (Ia : In a l) by (apply Hin; eapply nth_error_In; eassumption).
        destruct (first_index_in a l [x] Ia) as [-> Hlt].
        destruct (Nat.eq_dec j (List.length (distinct l))) as [->|Hne].
        -- rewrite nth_error_app2, Nat.sub_diag in Hb by lia.
           injection Hb as <-. rewrite first_index_fresh by exact Hx'. exact Hlt.
        -- rewrite nth_error_app1 in Hb by lia.
           assert (Ib : In b l) by (apply Hin; eapply nth_error_In; eassumption).
           destruct (first_index_in b l [x] Ib) as [-> _].
           eapply Hord; eassumption.
Qed.

(** ** Normalising the parsed reply *)

Lemma get_readable (v : value) (k : jsstring) :
  readable v = true -> get v k = Normal (field v k).
Proof. intros H. unfold get. rewrite H. reflexivity. Qed.

Lemma field_missing (v : value) (k : jsstring) :
  own_property v k = None -> field v k = VUndefined.
Proof. intros H. unfold field. rewrite H. reflexivity. Qed.

Lemma mapM_get_readable (k : jsstring) (parts : list value) :
  forallb readable parts = true ->
  mapM (fun p => get p k) parts = Normal (map (fun p => field p k) parts).
Proof.
  induction parts as [|p parts IH]; simpl; [reflexivity|].
  rewrite andb_true_iff. intros [Hp Hr].
  rewrite (get_readable p k Hp). simpl. rewrite (IH Hr). reflexivity.
Qed.

(** The names read from the three turns of the sample script. *)
Example script_reply_names :
  mapM (fun p => get p (js "voiceName"))
    (map part_value [Fixtures.alex_1; Fixtures.sarah; Fixtures.alex_2])
  = Normal (map VString [js "Kore"; js "Puck"; js "Kore"]).
Proof. reflexivity. Qed.

Lemma recommendation_persona (result : value) :
  readable result = true ->
  recommendation persona result =
  Normal {| voiceNames := or_else (field result (js "recommendedVoices")) (VArray []);
            systemInstruction := or_else (field result (js "systemInstruction")) (VString []);
            sampleText := or_else (field result (js "sampleText")) (VString []);
            isMultiSpeaker := Some false;
            scriptParts := None |}.
Proof.
  intros H. unfold recommendation. rewrite !(get_readable result _ H). reflexivity.
Qed.

Lemma recommendation_script (result : value) (parts : list value) :
  readable result = true ->
  or_else (field result (js "scriptParts")) (VArray []) = VArray parts ->
  forallb readable parts = true ->
  recommendation script result =
  Normal {| voiceNames :=
              VArray (new_Set (map (fun p => field p (js "voiceName")) parts));
            systemInstruction := or_else (field result (js "systemInstruction")) (VString []);
            sampleText := or_else (field result (js "sampleText")) (VString []);
            isMultiSpeaker := Some true;
            scriptParts := Some (VArray parts) |}.
Proof.
  intros H Hparts Hr. unfold recommendation.
  rewrite !(get_readable result _ H). cbn [bind]. rewrite Hparts.
  cbn [array_map]. rewrite (mapM_get_readable _ parts Hr). reflexivity.
Qed.

Lemma recommendation_unreadable (m : Mode) (result : value) :
  readable result = false -> recommendation m result = Throws.
Proof.
  intros H. destruct m; unfold recommendation, get; rewrite H; reflexivity.
Qed.

Lemma recommendation_persona_inv (result : value) (rec : AiRecommendation) :
  recommendation persona result = Normal rec ->
  isMultiSpeaker rec = Some false /\ scriptParts rec = None.
Proof.
  unfold recommendation, get. destruct (readable result); [|discriminate].
  cbn. intros [= <-]. split; reflexivity.
Qed.

Lemma recommendation_script_inv (result : value) (rec : AiRecommendation) :
  recommendation script result = Normal rec ->
  exists parts read,
    mapM (fun p => get p (js "voiceName")) parts = Normal read /\
    voiceNames rec = VArray (new_Set read) /\
    isMultiSpeaker rec = Some true /\
    scriptParts rec = Some (VArray parts).
Proof.
  unfold recommendation, get. destruct (readable result); [|discriminate].
  cbn [bind]. unfold array_map.
  destruct (or_else (field result (js "scriptParts")) (VArray [])) as [| | | | |parts|];
    try discriminate.
  destruct (mapM _ parts) as [read|] eqn:E; [|discriminate].
  cbn. intros [= <-]. exists parts, read. cbn. repeat split. exact E.
Qed.

(** ** The analyze action: the claims *)

(** C1: after a successful analysis in script mode, [voiceNames] holds
    exactly the voice names read from the script parts of the record,
    each of them once however often it repeats among the parts: no two
    entries are the same value, every name read is an entry, and every
    entry is a name read.  When the names are strings, as a script part
    declares, the entries are those strings without repetition. *)
Theorem voiceNames_are_the_distinct_voices
  (JSON_parse : jsstring -> option value) (GoogleGenAI : completion Client)
  (d : Dialog) (rec : AiRecommendation) :
  mode d = script ->
  recommended (handleAnalyze JSON_parse GoogleGenAI d) = recommended d ++ [rec] ->
  exists parts read listed,
    scriptParts rec = Some (VArray parts) /\
    mapM (fun p => get p (js "voiceName")) parts = Normal read /\
    voiceNames rec = VArray listed /\
    all_different listed /\
    (forall x, In x read -> In (stored x) listed) /\
    (forall y, In y listed -> exists x, In x read /\ y = stored x) /\
    (forall names, read = map VString names ->
       exists strings,
         listed = map VString strings /\
         NoDup strings /\
         (forall n, In n strings <-> In n names)).
Proof.
  intros Hm Hrec.
  destruct (handleAnalyze_delivers _ _ _ _ Hrec) as (ai & text & result & _ & _ & _ & _ & H).
  rewrite Hm in H.
  destruct (recommendation_script_inv _ _ H) as (parts & read & Hread & Hv & _ & Hp).
  exists parts, read, (new_Set read).
  assert (Hnil : all_different []) by (intros [|i] j a b _ Ha; discriminate Ha).
  destruct (fold_Set_add_spec read [] Hnil (Forall_nil _)) as (H1 & H2 & _ & H4).
  repeat (split; [assumption|]). split.
  - intros y Hy. destruct (H4 y Hy) as [[]|Hx]. exact Hx.
  - intros names ->. exists (distinct names).
    destruct (distinct_spec names) as (Hnd & Hin & _).
    split; [apply new_Set_strings | split; assumption].
Qed.

(** The script reply of three turns: Kore, Puck and Kore again are listed
    as Kore and Puck. *)
Lemma voiceNames_are_the_distinct_voices_witness :
  mode (Fixtures.dialog script "Alex: We found it.") = script /\
  recommended
    (handleAnalyze Fixtures.parse (Fixtures.replying (Some Fixtures.script_reply_text))
       (Fixtures.dialog script "Alex: We found it."))
  = recommended (Fixtures.dialog script "Alex: We found it.") ++ [Fixtures.script_record] /\
  exists parts read listed,
    scriptParts Fixtures.script_record = Some (VArray parts) /\
    mapM (fun p => get p (js "voiceName")) parts = Normal read /\
    voiceNames Fixtures.script_record = VArray listed /\
    all_different listed /\
    (forall x, In x read -> In (stored x) listed) /\
    (forall y, In y listed -> exists x, In x read /\ y = stored x) /\
    (forall names, read = map VString names ->
       exists strings,
         listed = map VString strings /\
         NoDup strings /\
         (forall n, In n strings <-> In n names)).
Proof.
  assert (H1 : mode (Fixtures.dialog script "Alex: We found it.") = script)
    by reflexivity.
  assert (H2 : recommended
    (handleAnalyze Fixtures.parse (Fixtures.replying (Some Fixtures.script_reply_text))
       (Fixtures.dialog script "Alex: We found it."))
    = recommended (Fixtures.dialog script "Alex: We found it.") ++ [Fixtures.script_record])
    by (vm_compute; reflexivity).
  split; [exact H1 | split; [exact H2 |]].
  exact (voiceNames_are_the_distinct_voices _ _ _ _ H1 H2).
Defined.

(** ** The order of a set *)

Lemma new_Set_snoc (l : list value) (x : value) :
  new_Set (l ++ [x]) = Set_add (new_Set l) x.
Proof. unfold new_Set. rewrite fold_left_app. reflexivity. Qed.

Lemma first_at_app (l m : list value) (p : nat) (x : value) :
  first_at l p x -> first_at (l ++ m) p x.
Proof.
  intros [Hp Hq].
  assert (Hlt : (p < List.length l)%nat) by (apply nth_error_Some; congruence).
  split.
  - rewrite nth_error_app1 by exact Hlt. exact Hp.
  - intros q w Hqp Hw. rewrite nth_error_app1 in Hw by lia. exact (Hq q w Hqp Hw).
Qed.

Lemma first_at_app_inv (l m : list value) (p : nat) (x : value) :
  (p < List.length l)%nat -> first_at (l ++ m) p x -> first_at l p x.
Proof.
  intros Hlt [Hp Hq]. rewrite nth_error_app1 in Hp by exact Hlt.
  split; [exact Hp|].
  intros q w Hqp Hw. apply (Hq q w Hqp). rewrite nth_error_app1 by lia. exact Hw.
Qed.

Lemma increasing_snoc (places : list nat) (n : nat) :
  increasing places -> Forall (fun p => (p < n)%nat) places ->
  increasing (places ++ [n]).
Proof.
  intros Hinc Hlt i j p q Hij Hp Hq.
  assert (Hj : (j < List.length (places ++ [n]))%nat) by (apply nth_error_Some; congruence).
  rewrite length_app in Hj. simpl in Hj.
  rewrite nth_error_app1 in Hp by lia.
  destruct (Nat.eq_dec j (List.length places)) as [->|Hne].
  - rewrite nth_error_app2, Nat.sub_diag in Hq by lia. injection Hq as <-.
    rewrite Forall_forall in Hlt. exact (Hlt p (nth_error_In _ _ Hp)).
  - rewrite nth_error_app1 in Hq by lia. exact (Hinc i j p q Hij Hp Hq).
Qed.

(** The elements of [new Set(read)] are the values at the first
    occurrences in [read], in the order of their places. *)
Lemma new_Set_places (read : list value) :
  exists places,
    increasing places /\
    Forall (fun p => (p < List.length read)%nat) places /\
    Forall2 (fun p y => exists x, first_at read p x /\ y = stored x) places (new_Set read) /\
    (forall p x, first_at read p x -> In p places).
Proof.
  induction read as [|x l (places & Hinc & Hlt & Hall & Hfull)] using rev_ind.
  - exists []. split; [|split; [constructor | split; [constructor|]]].
    + intros [|i] j p q _ H; discriminate H.
    + intros [|p] x [H _]; discriminate H.
  - assert (Hnil : all_different []) by (intros [|i] j a b _ Ha; discriminate Ha).
    destruct (fold_Set_add_spec l [] Hnil (Forall_nil _)) as (_ & H2 & _ & H4).
    fold (new_Set l) in H2, H4.
    assert (Hold : Forall2 (fun p y => exists z, first_at (l ++ [x]) p z /\ y = stored z)
                     places (new_Set l)).
    { revert Hall. apply Forall2_impl. intros p y (z & Hz & ->).
      exists z. split; [apply first_at_app, Hz | reflexivity]. }
    assert (Hlt' : Forall (fun p => (p < List.length (l ++ [x]))%nat) places).
    { revert Hlt. apply Forall_impl. intros p Hp. rewrite length_app. simpl. lia. }
    assert (Hlast : nth_error (l ++ [x]) (List.length l) = Some x)
      by (rewrite nth_error_app2, Nat.sub_diag by lia; reflexivity).
    rewrite new_Set_snoc. unfold Set_add.
    destruct (existsb (same_value_zero x) (new_Set l)) eqn:E.
    + exists places. split; [exact Hinc | split; [exact Hlt' | split; [exact Hold|]]].
      intros p z Hz.
      assert (Hp : (p < List.length (l ++ [x]))%nat)
        by (apply nth_error_Some; destruct Hz as [Hz _]; congruence).
      rewrite length_app in Hp. simpl in Hp.
      destruct (Nat.eq_dec p (List.length l)) as [->|Hne].
      * exfalso. destruct Hz as [Hz Hq]. rewrite Hlast in Hz. injection Hz as <-.
        apply existsb_exists in E. destruct E as (y & Hy & Hxy).
        destruct (H4 y Hy) as [[]|(w & Hw & ->)].
        rewrite same_value_zero_sym, same_value_zero_stored, same_value_zero_sym in Hxy.
        destruct (In_nth_error _ _ Hw) as (q & Hq').
        assert (Hql : (q < List.length l)%nat) by (apply nth_error_Some; congruence).
        assert (Hq'' : nth_error (l ++ [x]) q = Some w)
          by (rewrite nth_error_app1 by exact Hql; exact Hq').
        rewrite (Hq q w Hql Hq'') in Hxy. discriminate.
      * apply (Hfull p z). apply (first_at_app_inv l [x]); [lia | exact Hz].
    + exists (places ++ [List.length l]).
      assert (Hfresh : first_at (l ++ [x]) (List.length l) x).
      { split; [exact Hlast|]. intros q w Hq Hw.
        rewrite nth_error_app1 in Hw by exact Hq.
        assert (Hin : In (stored w) (new_Set l)) by (apply H2; eapply nth_error_In; exact Hw).
        destruct (same_value_zero x w) eqn:Hxw; [|reflexivity].
        rewrite <- E. symmetry. apply existsb_exists. exists (stored w).
        split; [exact Hin|].
        rewrite same_value_zero_sym, same_value_zero_stored, same_value_zero_sym. exact Hxw. }
      split; [apply increasing_snoc; assumption|]. split; [|split].
      * apply Forall_app. split; [exact Hlt'|].
        repeat constructor. rewrite length_app. simpl. lia.
      * apply Forall2_app; [exact Hold|].
        constructor; [|constructor]. exists x. split; [exact Hfresh | reflexivity].
      * intros p z Hz.
        assert (Hp : (p < List.length (l ++ [x]))%nat)
          by (apply nth_error_Some; destruct Hz as [Hz _]; congruence).
        rewrite length_app in Hp. simpl in Hp. apply in_or_app.
        destruct (Nat.eq_dec p (List.length l)) as [->|Hne];
          [right; left; reflexivity | left].
        apply (Hfull p z). apply (first_at_app_inv l [x]); [lia | exact Hz].
Qed.

Lemma mapM_get_fields (k : jsstring) (parts read : list value) :
  mapM (fun p => get p k) parts = Normal read ->
  read = map (fun p => field p k) parts.
Proof.
  revert read. induction parts as [|p parts IH]; intros read; cbn [mapM map].
  - intros [= <-]. reflexivity.
  - unfold get at 1. destruct (readable p); [|discriminate]. cbn [bind].
    destruct (mapM _ parts) as [ys|]; [|discriminate]. cbn [bind].
    intros [= <-]. rewrite (IH ys eq_refl). reflexivity.
Qed.

(** C10: in script mode the entries of [voiceNames] stand in the order
    in which their values first occur among the script parts, whatever
    values the parts hold as voice names.  The entries are, one for one
    and in this order, the values read at an increasing list of places
    of the parts; each of these places is a first occurrence, that is, no
    earlier part holds the same value; and every first occurrence is
    among them.  When the names are strings, of two entries the earlier
    one is the name that occurs first among the names read. *)
Theorem voiceNames_keep_first_occurrence_order
  (JSON_parse : jsstring -> option value) (GoogleGenAI : completion Client)
  (d : Dialog) (rec : AiRecommendation) :
  mode d = script ->
  recommended (handleAnalyze JSON_parse GoogleGenAI d) = recommended d ++ [rec] ->
  exists parts read listed places,
    scriptParts rec = Some (VArray parts) /\
    read = map (fun p => field p (js "voiceName")) parts /\
    voiceNames rec = VArray listed /\
    increasing places /\
    Forall2 (fun p y => exists x, first_at read p x /\ y = stored x) places listed /\
    (forall p x, first_at read p x -> In p places) /\
    (forall names, read = map VString names ->
       exists strings,
         listed = map VString strings /\
         (forall n, In n strings -> In n names) /\
         (forall i j a b,
             nth_error strings i = Some a ->
             nth_error strings j = Some b ->
             (i < j)%nat ->
             (first_index a names < first_index b names)%nat)).
Proof.
  intros Hm Hrec.
  destruct (handleAnalyze_delivers _ _ _ _ Hrec) as (ai & text & result & _ & _ & _ & _ & H).
  rewrite Hm in H.
  destruct (recommendation_script_inv _ _ H) as (parts & read & Hread & Hv & _ & Hp).
  destruct (new_Set_places read) as (places & Hinc & _ & Hall & Hfull).
  exists parts, read, (new_Set read), places.
  split; [exact Hp|]. split; [exact (mapM_get_fields _ _ _ Hread)|].
  repeat (split; [assumption|]).
  intros names ->. exists (distinct names).
  destruct (distinct_spec names) as (_ & Hin & Hord).
  split; [apply new_Set_strings | split; [intros n; apply Hin | exact Hord]].
Qed.

(** A reply whose second part has no voice name: Kore, nothing and Puck
    are listed in this order. *)
Lemma voiceNames_keep_first_occurrence_order_witness :
  mode (Fixtures.dialog script "Sarah: Be careful.") = script /\
  recommended
    (handleAnalyze MoreFixtures.parse (Fixtures.replying (Some MoreFixtures.unnamed_reply_text))
       (Fixtures.dialog script "Sarah: Be careful."))
  = recommended (Fixtures.dialog script "Sarah: Be careful.") ++ [MoreFixtures.unnamed_record] /\
  voiceNames MoreFixtures.unnamed_record
  = VArray [VString (js "Kore"); VUndefined; VString (js "Puck")] /\
  exists parts read listed places,
    scriptParts MoreFixtures.unnamed_record = Some (VArray parts) /\
    read = map (fun p => field p (js "voiceName")) parts /\
    voiceNames MoreFixtures.unnamed_record = VArray listed /\
    increasing places /\
    Forall2 (fun p y => exists x, first_at read p x /\ y = stored x) places listed /\
    (forall p x, first_at read p x -> In p places) /\
    (forall names, read = map VString names ->
       exists strings,
         listed = map VString strings /\
         (forall n, In n strings -> In n names) /\
         (forall i j a b,
             nth_error strings i = Some a ->
             nth_error strings j = Some b ->
             (i < j)%nat ->
             (first_index a names < first_index b names)%nat)).
Proof.
  assert (H1 : mode (Fixtures.dialog script "Sarah: Be careful.") = script)
    by reflexivity.
  assert (H2 : recommended
    (handleAnalyze MoreFixtures.parse (Fixtures.replying (Some MoreFixtures.unnamed_reply_text))
       (Fixtures.dialog script "Sarah: Be careful."))
    = recommended (Fixtures.dialog script "Sarah: Be careful.") ++ [MoreFixtures.unnamed_record])
    by (vm_compute; reflexivity).
  split; [exact H1 | split; [exact H2 | split; [reflexivity|]]].
  exact (voiceNames_keep_first_occurrence_order _ _ _ _ H1 H2).
Defined.

(** C2: a record that analyze passes to the handler has its script
    parts defined exactly when it is marked multi-speaker: in persona mode
    the mark is [false] and the property is absent, in script mode the
    mark is [true] and the property is defined. *)
Theorem scriptParts_iff_isMultiSpeaker
  (JSON_parse : jsstring -> option value) (GoogleGenAI : completion Client)
  (d : Dialog) (rec : AiRecommendation) :
  recommended (handleAnalyze JSON_parse GoogleGenAI d) = recommended d ++ [rec] ->
  (defined (scriptParts rec) = true <-> isMultiSpeaker rec = Some true) /\
  (mode d = persona -> isMultiSpeaker rec = Some false /\ scriptParts rec = None) /\
  (mode d = script -> isMultiSpeaker rec = Some true /\ defined (scriptParts rec) = true).
Proof.
  intros Hrec.
  destruct (handleAnalyze_delivers _ _ _ _ Hrec) as (ai & text & result & _ & _ & _ & _ & H).
  destruct (mode d).
  - destruct (recommendation_persona_inv _ _ H) as [Hm Hp]. rewrite Hm, Hp.
    cbn. repeat split; congruence.
  - destruct (recommendation_script_inv _ _ H) as (parts & read & _ & _ & Hm & Hp).
    rewrite Hm, Hp. cbn. repeat split; congruence.
Qed.

(** The partial reply in persona mode: not multi-speaker, no script
    parts. *)
Lemma scriptParts_iff_isMultiSpeaker_witness :
  recommended
    (handleAnalyze Fixtures.parse (Fixtures.replying (Some Fixtures.partial_reply_text))
       (Fixtures.dialog persona "A warm narrator"))
  = recommended (Fixtures.dialog persona "A warm narrator") ++ [Fixtures.partial_record] /\
  (defined (scriptParts Fixtures.partial_record) = true
   <-> isMultiSpeaker Fixtures.partial_record = Some true) /\
  (mode (Fixtures.dialog persona "A warm narrator") = persona ->
   isMultiSpeaker Fixtures.partial_record = Some false /\
   scriptParts Fixtures.partial_record = None) /\
  (mode (Fixtures.dialog persona "A warm narrator") = script ->
   isMultiSpeaker Fixtures.partial_record = Some true /\
   defined (scriptParts Fixtures.partial_record) = true).
Proof.
  assert (H : recommended
    (handleAnalyze Fixtures.parse (Fixtures.replying (Some Fixtures.partial_reply_text))
       (Fixtures.dialog persona "A warm narrator"))
    = recommended (Fixtures.dialog persona "A warm narrator") ++ [Fixtures.partial_record])
    by (vm_compute; reflexivity).
  split; [exact H|].
  exact (scriptParts_iff_isMultiSpeaker _ _ _ _ H).
Defined.

(** C5: analyzing a query that is empty or holds only white space does
    nothing: the dialog is as it was, so no request went to the model,
    no error was set and no record reached the handler. *)
Theorem blank_query_is_a_no_op
  (JSON_parse : jsstring -> option value) (GoogleGenAI : completion Client)
  (d : Dialog) :
  blank (query d) ->
  trim (query d) = [] /\
  handleAnalyze JSON_parse GoogleGenAI d = d /\
  sent (handleAnalyze JSON_parse GoogleGenAI d) = sent d /\
  error (handleAnalyze JSON_parse GoogleGenAI d) = error d /\
  loading (handleAnalyze JSON_parse GoogleGenAI d) = loading d /\
  recommended (handleAnalyze JSON_parse GoogleGenAI d) = recommended d.
Proof.
  intros H. pose proof (trim_blank _ H) as Ht.
  rewrite (handleAnalyze_blank JSON_parse GoogleGenAI d Ht).
  repeat split; try reflexivity. exact Ht.
Qed.

(** A query of three spaces. *)
Lemma blank_query_is_a_no_op_witness :
  blank (query (Fixtures.dialog script "   ")) /\
  trim (query (Fixtures.dialog script "   ")) = [] /\
  handleAnalyze Fixtures.parse (Fixtures.replying (Some Fixtures.script_reply_text))
    (Fixtures.dialog script "   ")
  = Fixtures.dialog script "   " /\
  sent (handleAnalyze Fixtures.parse (Fixtures.replying (Some Fixtures.script_reply_text))
          (Fixtures.dialog script "   "))
  = sent (Fixtures.dialog script "   ") /\
  error (handleAnalyze Fixtures.parse (Fixtures.replying (Some Fixtures.script_reply_text))
           (Fixtures.dialog script "   "))
  = error (Fixtures.dialog script "   ") /\
  loading (handleAnalyze Fixtures.parse (Fixtures.replying (Some Fixtures.script_reply_text))
             (Fixtures.dialog script "   "))
  = loading (Fixtures.dialog script "   ") /\
  recommended (handleAnalyze Fixtures.parse (Fixtures.replying (Some Fixtures.script_reply_text))
                 (Fixtures.dialog script "   "))
  = recommended (Fixtures.dialog script "   ").
Proof.
  assert (H : blank (query (Fixtures.dialog script "   ")))
    by (repeat constructor).
  split; [exact H|].
  exact (blank_query_is_a_no_op Fixtures.parse
           (Fixtures.replying (Some Fixtures.script_reply_text))
           (Fixtures.dialog script "   ") H).
Defined.

(** C6, as stated, fails for the empty text: it is not JSON, yet the
    dialog parses ["{}"] in its place, sets no error and passes the
    record of defaults to the handler, after the record shown before. *)
Lemma empty_text_is_not_a_failure :
  Fixtures.parse [] = None /\
  error
    (handleAnalyze Fixtures.parse (Fixtures.replying (Some []))
       (Fixtures.dialog_showing Fixtures.earlier persona "A warm narrator"))
  = None /\
  recommended
    (handleAnalyze Fixtures.parse (Fixtures.replying (Some []))
       (Fixtures.dialog_showing Fixtures.earlier persona "A warm narrator"))
  = [Fixtures.earlier; defaults persona].
Proof. repeat split; vm_compute; reflexivity. Qed.

(** C6, amended: when the reply's text is not empty and is not JSON, the
    analysis ends with the one failure message and the handler is not
    called, so the records it received before are all it has. *)
Theorem malformed_reply_fails
  (JSON_parse : jsstring -> option value) (GoogleGenAI : completion Client)
  (d : Dialog) (ai : Client) (text : jsstring) :
  is_empty (trim (query d)) = false ->
  GoogleGenAI = Normal ai ->
  ai (request_for d) = Response (Some text) ->
  text <> [] ->
  JSON_parse text = None ->
  error (handleAnalyze JSON_parse GoogleGenAI d) = Some failure_message /\
  recommended (handleAnalyze JSON_parse GoogleGenAI d) = recommended d /\
  loading (handleAnalyze JSON_parse GoogleGenAI d) = false /\
  sent (handleAnalyze JSON_parse GoogleGenAI d) = sent d ++ [request_for d].
Proof.
  intros Hq Hai Hr Hne Hp.
  assert (Ht : text_or_braces (Some text) = text).
  { destruct text; [congruence | reflexivity]. }
  rewrite (handleAnalyze_unparsed JSON_parse GoogleGenAI d ai (Some text) Hq Hai Hr)
    by (rewrite Ht; exact Hp).
  repeat split; reflexivity.
Qed.

(** A reply that is no JSON, while an earlier record is on display. *)
Lemma malformed_reply_fails_witness :
  is_empty (trim (query (Fixtures.dialog_showing Fixtures.earlier script "Alex: We found it.")))
  = false /\
  js "not json" <> [] /\
  Fixtures.parse (js "not json") = None /\
  error
    (handleAnalyze Fixtures.parse (Fixtures.replying (Some (js "not json")))
       (Fixtures.dialog_showing Fixtures.earlier script "Alex: We found it."))
  = Some failure_message /\
  recommended
    (handleAnalyze Fixtures.parse (Fixtures.replying (Some (js "not json")))
       (Fixtures.dialog_showing Fixtures.earlier script "Alex: We found it."))
  = recommended (Fixtures.dialog_showing Fixtures.earlier script "Alex: We found it.") /\
  loading
    (handleAnalyze Fixtures.parse (Fixtures.replying (Some (js "not json")))
       (Fixtures.dialog_showing Fixtures.earlier script "Alex: We found it."))
  = false /\
  sent
    (handleAnalyze Fixtures.parse (Fixtures.replying (Some (js "not json")))
       (Fixtures.dialog_showing Fixtures.earlier script "Alex: We found it."))
  = sent (Fixtures.dialog_showing Fixtures.earlier script "Alex: We found it.")
    ++ [request_for (Fixtures.dialog_showing Fixtures.earlier script "Alex: We found it.")].
Proof.
  assert (Hq : is_empty (trim (query
    (Fixtures.dialog_showing Fixtures.earlier script "Alex: We found it."))) = false)
    by reflexivity.
  assert (Hne : js "not json" <> []) by discriminate.
  assert (Hp : Fixtures.parse (js "not json") = None) by reflexivity.
  split; [exact Hq | split; [exact Hne | split; [exact Hp |]]].
  exact (malformed_reply_fails Fixtures.parse (Fixtures.replying (Some (js "not json")))
           (Fixtures.dialog_showing Fixtures.earlier script "Alex: We found it.")
           (fun _ => Response (Some (js "not json"))) (js "not json")
           Hq eq_refl eq_refl Hne Hp).
Defined.

(** C7, as stated, fails for replies that are JSON and have none of the
    required members, or lack two of them, and yet end in the failure
    message: the text [null], on which the first property read throws,
    and in script mode an object whose one script part is [null]. *)
Lemma null_reply_is_a_failure :
  (Fixtures.parse (js "null") = Some VNull /\
   own_property VNull (js "recommendedVoices") = None /\
   error
     (handleAnalyze Fixtures.parse (Fixtures.replying (Some (js "null")))
        (Fixtures.dialog persona "A warm narrator"))
   = Some failure_message /\
   recommended
     (handleAnalyze Fixtures.parse (Fixtures.replying (Some (js "null")))
        (Fixtures.dialog persona "A warm narrator"))
   = []) /\
  (Fixtures.parse Fixtures.null_part_text = Some Fixtures.null_part /\
   own_property Fixtures.null_part (js "systemInstruction") = None /\
   own_property Fixtures.null_part (js "sampleText") = None /\
   error
     (handleAnalyze Fixtures.parse (Fixtures.replying (Some Fixtures.null_part_text))
        (Fixtures.dialog script "Alex: We found it."))
   = Some failure_message /\
   recommended
     (handleAnalyze Fixtures.parse (Fixtures.replying (Some Fixtures.null_part_text))
        (Fixtures.dialog script "Alex: We found it."))
   = []).
Proof. repeat split; vm_compute; reflexivity. Qed.

(** C7, amended: when the reply parses to a value other than [null]
    and, in script mode, its script parts are missing, falsy or an array
    without [null] elements, the analysis succeeds with a complete
    record in which a missing instruction or sample text is the empty
    string and a missing array of voices or of script parts is the empty
    array. *)
Theorem missing_members_are_defaulted
  (JSON_parse : jsstring -> option value) (GoogleGenAI : completion Client)
  (d : Dialog) (ai : Client) (text : option jsstring) (result : value) :
  is_empty (trim (query d)) = false ->
  GoogleGenAI = Normal ai ->
  ai (request_for d) = Response text ->
  JSON_parse (text_or_braces text) = Some result ->
  readable result = true ->
  (mode d = script -> usable_parts (field result (js "scriptParts")) = true) ->
  exists rec,
    handleAnalyze JSON_parse GoogleGenAI d = succeeded_with rec d /\
    error (handleAnalyze JSON_parse GoogleGenAI d) = None /\
    recommended (handleAnalyze JSON_parse GoogleGenAI d) = recommended d ++ [rec] /\
    (own_property result (js "systemInstruction") = None ->
     systemInstruction rec = VString []) /\
    (own_property result (js "sampleText") = None ->
     sampleText rec = VString []) /\
    (mode d = persona -> own_property result (js "recommendedVoices") = None ->
     voiceNames rec = VArray []) /\
    (mode d = script -> own_property result (js "scriptParts") = None ->
     scriptParts rec = Some (VArray []) /\ voiceNames rec = VArray []).
Proof.
  intros Hq Hai Hr Hp Hread Hparts.
  destruct (mode d) eqn:Hm.
  - eexists. rewrite (handleAnalyze_success JSON_parse GoogleGenAI d ai text result _ Hq Hai Hr Hp)
      by (rewrite Hm; apply recommendation_persona, Hread).
    split; [reflexivity|]. split; [reflexivity|]. split; [reflexivity|].
    cbn [voiceNames systemInstruction sampleText scriptParts].
    split; [intros H; rewrite (field_missing _ _ H); reflexivity|].
    split; [intros H; rewrite (field_missing _ _ H); reflexivity|].
    split; [intros _ H; rewrite (field_missing _ _ H); reflexivity|].
    intros [=].
  - specialize (Hparts eq_refl). unfold usable_parts in Hparts.
    destruct (or_else (field result (js "scriptParts")) (VArray []))
      as [| | | | |parts|] eqn:E; try discriminate.
    eexists. rewrite (handleAnalyze_success JSON_parse GoogleGenAI d ai text result _ Hq Hai Hr Hp)
      by (rewrite Hm; apply (recommendation_script result parts Hread E Hparts)).
    split; [reflexivity|]. split; [reflexivity|]. split; [reflexivity|].
    cbn [voiceNames systemInstruction sampleText scriptParts].
    split; [intros H; rewrite (field_missing _ _ H); reflexivity|].
    split; [intros H; rewrite (field_missing _ _ H); reflexivity|].
    split; [intros [=]|].
    intros _ H. rewrite (field_missing _ _ H) in E. cbn in E.
    injection E as <-. split; reflexivity.
Qed.

(** The partial reply: of the three required members only the sample
    text is there. *)
Lemma missing_members_are_defaulted_witness :
  is_empty (trim (query (Fixtures.dialog persona "A warm narrator"))) = false /\
  Fixtures.parse (text_or_braces (Some Fixtures.partial_reply_text))
  = Some Fixtures.partial_reply /\
  readable Fixtures.partial_reply = true /\
  exists rec,
    handleAnalyze Fixtures.parse (Fixtures.replying (Some Fixtures.partial_reply_text))
      (Fixtures.dialog persona "A warm narrator")
    = succeeded_with rec (Fixtures.dialog persona "A warm narrator") /\
    error
      (handleAnalyze Fixtures.parse (Fixtures.replying (Some Fixtures.partial_reply_text))
         (Fixtures.dialog persona "A warm narrator"))
    = None /\
    recommended
      (handleAnalyze Fixtures.parse (Fixtures.replying (Some Fixtures.partial_reply_text))
         (Fixtures.dialog persona "A warm narrator"))
    = recommended (Fixtures.dialog persona "A warm narrator") ++ [rec] /\
    (own_property Fixtures.partial_reply (js "systemInstruction") = None ->
     systemInstruction rec = VString []) /\
    (own_property Fixtures.partial_reply (js "sampleText") = None ->
     sampleText rec = VString []) /\
    (mode (Fixtures.dialog persona "A warm narrator") = persona ->
     own_property Fixtures.partial_reply (js "recommendedVoices") = None ->
     voiceNames rec = VArray []) /\
    (mode (Fixtures.dialog persona "A warm narrator") = script ->
     own_property Fixtures.partial_reply (js "scriptParts") = None ->
     scriptParts rec = Some (VArray []) /\ voiceNames rec = VArray []).
Proof.
  assert (Hq : is_empty (trim (query (Fixtures.dialog persona "A warm narrator"))) = false)
    by reflexivity.
  assert (Hp : Fixtures.parse (text_or_braces (Some Fixtures.partial_reply_text))
               = Some Fixtures.partial_reply) by reflexivity.
  assert (Hread : readable Fixtures.partial_reply = true) by reflexivity.
  split; [exact Hq | split; [exact Hp | split; [exact Hread |]]].
  refine (missing_members_are_defaulted Fixtures.parse
            (Fixtures.replying (Some Fixtures.partial_reply_text))
            (Fixtures.dialog persona "A warm narrator")
            (fun _ => Response (Some Fixtures.partial_reply_text))
            (Some Fixtures.partial_reply_text) Fixtures.partial_reply
            Hq eq_refl eq_refl Hp Hread _).
  intros H. discriminate H.
Defined.

(** C9: when the reply has no text, or the empty text, the analysis does
    not fail: ["{}"] is parsed in its place and the handler receives the
    record in which every member took its default. *)
Theorem empty_reply_yields_defaults
  (JSON_parse : jsstring -> option value) (GoogleGenAI : completion Client)
  (d : Dialog) (ai : Client) (text : option jsstring) :
  JSON_parse (js "{}") = Some (VObject []) ->
  is_empty (trim (query d)) = false ->
  GoogleGenAI = Normal ai ->
  ai (request_for d) = Response text ->
  text = None \/ text = Some [] ->
  text_or_braces text = js "{}" /\
  handleAnalyze JSON_parse GoogleGenAI d = succeeded_with (defaults (mode d)) d /\
  error (handleAnalyze JSON_parse GoogleGenAI d) = None /\
  loading (handleAnalyze JSON_parse GoogleGenAI d) = false /\
  recommended (handleAnalyze JSON_parse GoogleGenAI d)
  = recommended d ++ [defaults (mode d)] /\
  voiceNames (defaults (mode d)) = VArray [] /\
  systemInstruction (defaults (mode d)) = VString [] /\
  sampleText (defaults (mode d)) = VString [] /\
  (mode d = script -> scriptParts (defaults (mode d)) = Some (VArray [])).
Proof.
  intros Hbraces Hq Hai Hr Htext.
  assert (Ht : text_or_braces text = js "{}")
    by (destruct Htext as [-> | ->]; reflexivity).
  assert (Hrec : recommendation (mode d) (VObject []) = Normal (defaults (mode d)))
    by (destruct (mode d); reflexivity).
  pose proof (handleAnalyze_success JSON_parse GoogleGenAI d ai text (VObject [])
                (defaults (mode d)) Hq Hai Hr) as H.
  rewrite Ht in H. rewrite (H Hbraces Hrec).
  split; [exact Ht|].
  repeat split; try reflexivity; destruct (mode d); try reflexivity; discriminate.
Qed.

(** A response without text, in script mode. *)
Lemma empty_reply_yields_defaults_witness :
  Fixtures.parse (js "{}") = Some (VObject []) /\
  is_empty (trim (query (Fixtures.dialog script "Alex: We found it."))) = false /\
  text_or_braces None = js "{}" /\
  handleAnalyze Fixtures.parse (Fixtures.replying None)
    (Fixtures.dialog script "Alex: We found it.")
  = succeeded_with (defaults (mode (Fixtures.dialog script "Alex: We found it.")))
      (Fixtures.dialog script "Alex: We found it.") /\
  error (handleAnalyze Fixtures.parse (Fixtures.replying None)
           (Fixtures.dialog script "Alex: We found it.")) = None /\
  loading (handleAnalyze Fixtures.parse (Fixtures.replying None)
             (Fixtures.dialog script "Alex: We found it.")) = false /\
  recommended (handleAnalyze Fixtures.parse (Fixtures.replying None)
                 (Fixtures.dialog script "Alex: We found it."))
  = recommended (Fixtures.dialog script "Alex: We found it.")
    ++ [defaults (mode (Fixtures.dialog script "Alex: We found it."))] /\
  voiceNames (defaults (mode (Fixtures.dialog script "Alex: We found it."))) = VArray [] /\
  systemInstruction (defaults (mode (Fixtures.dialog script "Alex: We found it.")))
  = VString [] /\
  sampleText (defaults (mode (Fixtures.dialog script "Alex: We found it."))) = VString [] /\
  (mode (Fixtures.dialog script "Alex: We found it.") = script ->
   scriptParts (defaults (mode (Fixtures.dialog script "Alex: We found it.")))
   = Some (VArray [])).
Proof.
  assert (Hb : Fixtures.parse (js "{}") = Some (VObject [])) by reflexivity.
  assert (Hq : is_empty (trim (query (Fixtures.dialog script "Alex: We found it."))) = false)
    by reflexivity.
  split; [exact Hb | split; [exact Hq |]].
  exact (empty_reply_yields_defaults Fixtures.parse (Fixtures.replying None)
           (Fixtures.dialog script "Alex: We found it.")
           (fun _ => Response None) None Hb Hq eq_refl eq_refl (or_introl eq_refl)).
Defined.

(** ** The heading normalisation *)

Lemma space_is_no_hash (c : N) : is_space c = true -> (c =? HASH) = false.
Proof.
  intros H. destruct (N.eqb_spec c HASH) as [->|]; [discriminate H | reflexivity].
Qed.

Lemma hashes_space (c : N) (r : jsstring) : is_space c = true -> hashes (c :: r) = None.
Proof.
  intros H. unfold hashes. destruct r as [|b r]; [reflexivity|].
  rewrite (space_is_no_hash c H). reflexivity.
Qed.

(** The star never has to give a space back: a space is no hash. *)
Lemma spaces_hashes_trimStart (s : jsstring) :
  spaces_hashes s = hashes (trimStart s).
Proof.
  induction s as [|c s IH]; [reflexivity|].
  cbn [spaces_hashes trimStart]. destruct (is_space c) eqn:E; [|reflexivity].
  rewrite IH. destruct (hashes (trimStart s)); [reflexivity|].
  apply hashes_space, E.
Qed.

Lemma spaces_hashes_blank (w v : jsstring) :
  blank w -> spaces_hashes (w ++ HASH :: HASH :: v) = Some v.
Proof.
  induction 1 as [|c w Hc _ IH]; [reflexivity|].
  cbn [app spaces_hashes]. rewrite Hc, IH. reflexivity.
Qed.

Lemma replace_headings_nil : replace_headings [] = [].
Proof. simp replace_headings. reflexivity. Qed.

Lemma replace_headings_match (c : N) (r t : jsstring) :
  match_here (c :: r) = Some t ->
  replace_headings (c :: r) = c :: LF :: LF :: HASH :: HASH :: replace_headings t.
Proof.
  intros H. simp replace_headings.
  destruct (inspect (match_here (c :: r))) as [[t'|] e]; simp replace_headings; congruence.
Qed.

Lemma replace_headings_skip (c : N) (r : jsstring) :
  match_here (c :: r) = None ->
  replace_headings (c :: r) = c :: replace_headings r.
Proof.
  intros H. simp replace_headings.
  destruct (inspect (match_here (c :: r))) as [[t'|] e]; simp replace_headings;
    [congruence | reflexivity].
Qed.

Lemma match_here_shorter (s t : jsstring) :
  match_here s = Some t -> (List.length t < List.length s)%nat.
Proof.
  destruct s as [|c r]; [discriminate|]. unfold match_here.
  destruct (c =? LF); [discriminate|]. rewrite spaces_hashes_trimStart.
  assert (Hle : forall u, (List.length (trimStart u) <= List.length u)%nat).
  { induction u as [|x u IH]; simpl; [lia|]. destruct (is_space x); simpl; lia. }
  specialize (Hle r). unfold hashes.
  destruct (trimStart r) as [|a [|b u]]; try discriminate.
  destruct ((a =? HASH) && (b =? HASH)); [|discriminate].
  intros [= <-]. simpl in *. lia.
Qed.

(** The replacement leaves the first code unit in place. *)
Lemma replace_headings_head (c : N) (r : jsstring) :
  exists t, replace_headings (c :: r) = c :: t /\
            (hd_error t = Some HASH -> hd_error r = Some HASH).
Proof.
  destruct (match_here (c :: r)) as [t|] eqn:E.
  - rewrite (replace_headings_match c r t E). eexists. split; [reflexivity|].
    discriminate.
  - rewrite (replace_headings_skip c r E). eexists. split; [reflexivity|].
    destruct r as [|x r]; [simp replace_headings; discriminate|].
    destruct (match_here (x :: r)) as [t|] eqn:E'.
    + rewrite (replace_headings_match x r t E'). trivial.
    + rewrite (replace_headings_skip x r E'). trivial.
Qed.

Lemma hashes_None_head (c : N) (r r' : jsstring) :
  hashes (c :: r) = None ->
  (hd_error r' = Some HASH -> hd_error r = Some HASH) ->
  hashes (c :: r') = None.
Proof.
  unfold hashes. intros H Hh. destruct r' as [|b' r']; [reflexivity|].
  destruct ((c =? HASH) && (b' =? HASH)) eqn:E; [|reflexivity].
  apply andb_true_iff in E. destruct E as [Ec Eb]. apply N.eqb_eq in Eb. subst b'.
  specialize (Hh eq_refl). destruct r as [|b r]; [discriminate|].
  injection Hh as ->. rewrite Ec, N.eqb_refl in H. discriminate.
Qed.

(** Where the pattern's tail found no heading, it finds none after the
    replacement either. *)
Lemma spaces_hashes_stable (r : jsstring) :
  spaces_hashes r = None -> spaces_hashes (replace_headings r) = None.
Proof.
  induction r as [|x r IH]; [simp replace_headings; trivial|].
  cbn [spaces_hashes]. destruct (is_space x) eqn:Ex.
  - destruct (spaces_hashes r) eqn:Er; [discriminate|]. intros _.
    assert (E : match_here (x :: r) = None).
    { unfold match_here. destruct (x =? LF); [reflexivity | exact Er]. }
    rewrite (replace_headings_skip x r E). cbn [spaces_hashes].
    rewrite Ex, (IH eq_refl). apply hashes_space, Ex.
  - intros H. destruct (replace_headings_head x r) as (t & -> & Ht).
    cbn [spaces_hashes]. rewrite Ex. eapply hashes_None_head; eassumption.
Qed.

Lemma replace_headings_idempotent (s : jsstring) :
  replace_headings (replace_headings s) = replace_headings s.
Proof.
  remember (List.length s) as n eqn:Hn. revert s Hn.
  induction n as [n IH] using lt_wf_ind. intros s ->.
  destruct s as [|c r]; [simp replace_headings; reflexivity|].
  destruct (match_here (c :: r)) as [t|] eqn:E.
  - rewrite (replace_headings_match c r t E).
    assert (E' : match_here (c :: LF :: LF :: HASH :: HASH :: replace_headings t)
                 = Some (replace_headings t)).
    { unfold match_here in *. destruct (c =? LF); [discriminate | reflexivity]. }
    rewrite (replace_headings_match _ _ _ E').
    rewrite (IH (List.length t) (match_here_shorter _ _ E) t eq_refl). reflexivity.
  - rewrite (replace_headings_skip c r E).
    assert (E' : match_here (c :: replace_headings r) = None).
    { unfold match_here in *. destruct (c =? LF); [reflexivity|].
      apply spaces_hashes_stable, E. }
    rewrite (replace_headings_skip _ _ E').
    rewrite (IH (List.length r) (Nat.lt_succ_diag_r _) r eq_refl). reflexivity.
Qed.

(** C3: normalising twice gives what normalising once gives, for every
    instruction text. *)
Theorem formattedInstruction_idempotent (systemInstruction : jsstring) :
  formattedInstruction (formattedInstruction systemInstruction)
  = formattedInstruction systemInstruction.
Proof.
  unfold formattedInstruction. destruct systemInstruction as [|c r]; [reflexivity|].
  cbn [is_empty]. destruct (replace_headings_head c r) as (t & E & _).
  rewrite E at 1. cbn [is_empty]. apply replace_headings_idempotent.
Qed.

Lemma formattedInstruction_replace (s : jsstring) :
  formattedInstruction s = replace_headings s.
Proof.
  unfold formattedInstruction. destruct s; [simp replace_headings|]; reflexivity.
Qed.

(** A code unit that is neither a space nor a hash ends every attempt
    to match that reaches it. *)
Lemma spaces_hashes_barrier (c : N) (u rest : jsstring) :
  is_space c = false -> c <> HASH ->
  spaces_hashes (u ++ c :: rest)
  = option_map (fun t => t ++ c :: rest) (spaces_hashes u).
Proof.
  intros Hs Hh. apply N.eqb_neq in Hh.
  assert (Hc : hashes (c :: rest) = None).
  { unfold hashes. destruct rest; [reflexivity|]. rewrite Hh. reflexivity. }
  induction u as [|x u IH].
  - cbn [app spaces_hashes]. rewrite Hs. exact Hc.
  - assert (Hx : hashes ((x :: u) ++ c :: rest)
                 = option_map (fun t => t ++ c :: rest) (hashes (x :: u))).
    { unfold hashes. destruct u as [|y u]; cbn [app].
      - rewrite Hh, andb_false_r. reflexivity.
      - destruct ((x =? HASH) && (y =? HASH)); reflexivity. }
    cbn [app spaces_hashes] in *. destruct (is_space x); [|exact Hx].
    rewrite IH. destruct (spaces_hashes u); [reflexivity | exact Hx].
Qed.

Lemma replace_headings_barrier (c : N) (u rest : jsstring) :
  is_space c = false -> c <> HASH ->
  replace_headings (u ++ c :: rest)
  = replace_headings u ++ replace_headings (c :: rest).
Proof.
  intros Hs Hh. remember (List.length u) as n eqn:Hn. revert u Hn.
  induction n as [n IH] using lt_wf_ind. intros u ->.
  destruct u as [|x u]; [rewrite replace_headings_nil; reflexivity|].
  assert (E : match_here ((x :: u) ++ c :: rest)
              = option_map (fun t => t ++ c :: rest) (match_here (x :: u))).
  { cbn [app match_here]. destruct (x =? LF); [reflexivity|].
    apply spaces_hashes_barrier; assumption. }
  destruct (match_here (x :: u)) as [t|] eqn:Ex; cbn [option_map] in E.
  - rewrite (replace_headings_match x u t Ex).
    cbn [app] in *. rewrite (replace_headings_match _ _ _ E).
    rewrite (IH (List.length t) (match_here_shorter _ _ Ex) t eq_refl). reflexivity.
  - rewrite (replace_headings_skip x u Ex).
    cbn [app] in *. rewrite (replace_headings_skip _ _ E).
    rewrite (IH (List.length u) (Nat.lt_succ_diag_r _) u eq_refl). reflexivity.
Qed.

Lemma replace_headings_heading (c : N) (gap after : jsstring) :
  is_space c = false -> blank gap ->
  replace_headings (c :: gap ++ HASH :: HASH :: after)
  = c :: LF :: LF :: HASH :: HASH :: replace_headings after.
Proof.
  intros Hs Hg. apply replace_headings_match. unfold match_here.
  destruct (N.eqb_spec c LF) as [->|_]; [discriminate Hs|].
  apply spaces_hashes_blank, Hg.
Qed.

(** C4, as stated, fails for a heading marker that has no character to
    be separated from: the pattern needs a character other than a line
    feed before the hashes.  A marker that opens the text gets no empty
    line, and neither does one that follows the previous marker with
    only a line feed in between. *)
Lemma heading_without_a_blank_line :
  formattedInstruction (js "## Cast") = js "## Cast" /\
  formattedInstruction (js "Intro.##" ++ [LF] ++ js "## Cast")
  = js "Intro." ++ [LF; LF] ++ js "##" ++ [LF] ++ js "## Cast".
Proof. split; reflexivity. Qed.

(** C4, amended: the normalisation turns [Intro.##Scene One] into the
    same text with an empty line before the hashes, and leaves the text
    that has the empty line as it is.  In general, two hashes written
    after a visible character other than a hash, with nothing or only
    white space in between, come out separated from that character by
    two line feeds, the text before and the text after being normalised
    on their own. *)
Theorem headings_get_a_blank_line :
  formattedInstruction (js "Intro.##Scene One")
  = js "Intro." ++ [LF; LF] ++ js "##Scene One" /\
  formattedInstruction (js "Intro." ++ [LF; LF] ++ js "##Scene One")
  = js "Intro." ++ [LF; LF] ++ js "##Scene One" /\
  (forall (before : jsstring) (c : N) (gap after : jsstring),
      is_space c = false -> c <> HASH -> blank gap ->
      formattedInstruction (before ++ [c] ++ gap ++ js "##" ++ after)
      = formattedInstruction before ++ [c] ++ [LF; LF] ++ js "##"
        ++ formattedInstruction after).
Proof.
  split; [reflexivity | split; [reflexivity|]].
  intros before c gap after Hs Hh Hg. rewrite !formattedInstruction_replace.
  change (js "##" ++ after) with (HASH :: HASH :: after).
  change ([c] ++ gap ++ HASH :: HASH :: after) with (c :: gap ++ HASH :: HASH :: after).
  rewrite (replace_headings_barrier c before _ Hs Hh).
  rewrite (replace_headings_heading c gap after Hs Hg). reflexivity.
Qed.

(** A second heading after a sentence, a space and a line feed; the first
    heading opens the text. *)
Lemma headings_get_a_blank_line_witness :
  is_space 46 = false /\ 46 <> HASH /\ blank [32; LF] /\
  formattedInstruction
    (js "## Cast" ++ [LF] ++ js "Alex is tense" ++ [46] ++ [32; LF] ++ js "##" ++ js " Pacing")
  = formattedInstruction (js "## Cast" ++ [LF] ++ js "Alex is tense")
    ++ [46] ++ [LF; LF] ++ js "##" ++ formattedInstruction (js " Pacing").
Proof.
  assert (Hs : is_space 46 = false) by reflexivity.
  assert (Hh : 46 <> HASH) by discriminate.
  assert (Hg : blank [32; LF]) by (repeat constructor).
  split; [exact Hs | split; [exact Hh | split; [exact Hg |]]].
  exact (proj2 (proj2 headings_get_a_blank_line)
           (js "## Cast" ++ [LF] ++ js "Alex is tense") 46 [32; LF] (js " Pacing")
           Hs Hh Hg).
Defined.

(** ** The copy action *)

(** One copy on its own: the section is flagged for the delay and then
    cleared. *)
Lemma single_copy_flag (t0 : N) (a A : jsstring) (e : N) :
  copiedSection (elapse e (handleCopy a A (mounted t0)))
  = if e <? delay then Some A else None.
Proof.
  unfold elapse, handleCopy, setTimeout, setCopiedSection, writeText, mounted.
  cbn [timeouts now copiedSection clipboard app filter].
  destruct (N.ltb_spec e delay), (N.leb_spec (t0 + delay) (t0 + e)); try lia; reflexivity.
Qed.

(** The card never cancels a timer.  Section A is copied, section B is
    copied [d] milliseconds later, within the delay.  Right after the
    second copy only B is flagged; the timer of the first copy is still
    pending, and when it falls due, [e] milliseconds after the second
    copy with [e] short of the delay, it clears the flag, which a copy of
    B alone would still show. *)
Lemma stale_timer_clears_the_later_copy
  (t0 : N) (a A b B : jsstring) (d e : N) :
  d < delay -> e < delay -> delay <= d + e ->
  copiedSection (handleCopy b B (elapse d (handleCopy a A (mounted t0)))) = Some B /\
  copiedSection (elapse e (handleCopy b B (elapse d (handleCopy a A (mounted t0))))) = None /\
  copiedSection (elapse e (handleCopy b B (mounted (t0 + d)))) = Some B.
Proof.
  intros Hd He Hde. split; [reflexivity|]. split.
  - unfold elapse, handleCopy, setTimeout, setCopiedSection, writeText, mounted.
    cbn [timeouts now copiedSection clipboard app filter].
    destruct (N.leb_spec (t0 + delay) (t0 + d)); [lia|].
    cbn [timeouts now copiedSection clipboard app filter negb fold_left].
    destruct (N.leb_spec (t0 + delay) (t0 + d + e)); [|lia].
    destruct (N.leb_spec (t0 + d + delay) (t0 + d + e)); [lia|].
    reflexivity.
  - rewrite single_copy_flag. destruct (N.ltb_spec e delay); [reflexivity | lia].
Qed.

(** ** Further properties of the analyze action *)

(** X1: a query trims to nothing exactly when it is empty or holds only
    white space. *)
Theorem trim_empty_iff_blank (s : jsstring) : trim s = [] <-> blank s.
Proof. split; [apply trim_nil_blank | apply trim_blank]. Qed.

(** X2: one analysis sends at most one request to the model, and passes
    at most one record to the handler. *)
Theorem at_most_one_request_and_record
  (JSON_parse : jsstring -> option value) (GoogleGenAI : completion Client)
  (d : Dialog) :
  (sent (handleAnalyze JSON_parse GoogleGenAI d) = sent d \/
   sent (handleAnalyze JSON_parse GoogleGenAI d) = sent d ++ [request_for d]) /\
  (recommended (handleAnalyze JSON_parse GoogleGenAI d) = recommended d \/
   exists rec,
     recommended (handleAnalyze JSON_parse GoogleGenAI d) = recommended d ++ [rec] /\
     error (handleAnalyze JSON_parse GoogleGenAI d) = None).
Proof.
  unfold handleAnalyze, attempt.
  destruct (is_empty (trim (query d))); [split; left; reflexivity|].
  destruct GoogleGenAI as [ai|]; cbn; [|split; left; reflexivity].
  change (request_for _) with (request_for d).
  destruct (ai (request_for d)) as [|text]; cbn; [split; [right|left]; reflexivity|].
  destruct (JSON_parse (text_or_braces text)) as [result|]; cbn;
    [|split; [right|left]; reflexivity].
  destruct (recommendation (mode d) result) as [rec|]; cbn;
    [|split; [right|left]; reflexivity].
  split; [right; reflexivity|]. right. exists rec. split; reflexivity.
Qed.

(** X3: whatever happens to an analysis of a query that is not blank,
    the loading flag is down when it has settled; a blank query leaves
    the flag as it was. *)
Theorem loading_is_down_after_analysis
  (JSON_parse : jsstring -> option value) (GoogleGenAI : completion Client)
  (d : Dialog) :
  loading (handleAnalyze JSON_parse GoogleGenAI d)
  = if is_empty (trim (query d)) then loading d else false.
Proof.
  unfold handleAnalyze. destruct (is_empty (trim (query d))); reflexivity.
Qed.

(** X4: when the client cannot be constructed, or the call to the model
    is rejected, the analysis ends with the failure message and the
    handler is not called. *)
Theorem failed_call_fails
  (JSON_parse : jsstring -> option value) (GoogleGenAI : completion Client)
  (d : Dialog) :
  is_empty (trim (query d)) = false ->
  GoogleGenAI = Throws \/
  (exists ai, GoogleGenAI = Normal ai /\ ai (request_for d) = Rejected) ->
  error (handleAnalyze JSON_parse GoogleGenAI d) = Some failure_message /\
  recommended (handleAnalyze JSON_parse GoogleGenAI d) = recommended d /\
  loading (handleAnalyze JSON_parse GoogleGenAI d) = false /\
  logged (handleAnalyze JSON_parse GoogleGenAI d) = S (logged d).
Proof.
  intros Hq H. unfold handleAnalyze, attempt. rewrite Hq.
  destruct H as [-> | (ai & -> & Hr)]; cbn.
  - repeat split; reflexivity.
  - change (request_for _) with (request_for d). rewrite Hr.
    repeat split; reflexivity.
Qed.

(** A client whose call is rejected. *)
Lemma failed_call_fails_witness :
  is_empty (trim (query (Fixtures.dialog_showing Fixtures.earlier persona "A warm narrator")))
  = false /\
  error (handleAnalyze Fixtures.parse (Normal (fun _ => Rejected))
           (Fixtures.dialog_showing Fixtures.earlier persona "A warm narrator"))
  = Some failure_message /\
  recommended (handleAnalyze Fixtures.parse (Normal (fun _ => Rejected))
                 (Fixtures.dialog_showing Fixtures.earlier persona "A warm narrator"))
  = recommended (Fixtures.dialog_showing Fixtures.earlier persona "A warm narrator") /\
  loading (handleAnalyze Fixtures.parse (Normal (fun _ => Rejected))
             (Fixtures.dialog_showing Fixtures.earlier persona "A warm narrator"))
  = false /\
  logged (handleAnalyze Fixtures.parse (Normal (fun _ => Rejected))
            (Fixtures.dialog_showing Fixtures.earlier persona "A warm narrator"))
  = S (logged (Fixtures.dialog_showing Fixtures.earlier persona "A warm narrator")).
Proof.
  assert (Hq : is_empty (trim (query
    (Fixtures.dialog_showing Fixtures.earlier persona "A warm narrator"))) = false)
    by reflexivity.
  split; [exact Hq|].
  exact (failed_call_fails Fixtures.parse (Normal (fun _ => Rejected))
           (Fixtures.dialog_showing Fixtures.earlier persona "A warm narrator") Hq
           (or_intror (ex_intro _ (fun _ => Rejected) (conj eq_refl eq_refl)))).
Defined.

(** X5: a reply that parses to [null] ends in the failure message: the
    first property read throws, and the handler is not called. *)
Theorem null_result_fails
  (JSON_parse : jsstring -> option value) (GoogleGenAI : completion Client)
  (d : Dialog) (ai : Client) (text : option jsstring) :
  is_empty (trim (query d)) = false ->
  GoogleGenAI = Normal ai ->
  ai (request_for d) = Response text ->
  JSON_parse (text_or_braces text) = Some VNull ->
  handleAnalyze JSON_parse GoogleGenAI d = failed_after_sending d /\
  error (handleAnalyze JSON_parse GoogleGenAI d) = Some failure_message /\
  recommended (handleAnalyze JSON_parse GoogleGenAI d) = recommended d.
Proof.
  intros Hq Hai Hr Hp.
  rewrite (handleAnalyze_unusable JSON_parse GoogleGenAI d ai text VNull Hq Hai Hr Hp
             (recommendation_unreadable (mode d) VNull eq_refl)).
  repeat split; reflexivity.
Qed.

(** The reply [null] in persona mode. *)
Lemma null_result_fails_witness :
  is_empty (trim (query (Fixtures.dialog persona "A warm narrator"))) = false /\
  Fixtures.parse (text_or_braces (Some (js "null"))) = Some VNull /\
  handleAnalyze Fixtures.parse (Fixtures.replying (Some (js "null")))
    (Fixtures.dialog persona "A warm narrator")
  = failed_after_sending (Fixtures.dialog persona "A warm narrator") /\
  error (handleAnalyze Fixtures.parse (Fixtures.replying (Some (js "null")))
           (Fixtures.dialog persona "A warm narrator"))
  = Some failure_message /\
  recommended (handleAnalyze Fixtures.parse (Fixtures.replying (Some (js "null")))
                 (Fixtures.dialog persona "A warm narrator"))
  = recommended (Fixtures.dialog persona "A warm narrator").
Proof.
  assert (Hq : is_empty (trim (query (Fixtures.dialog persona "A warm narrator"))) = false)
    by reflexivity.
  assert (Hp : Fixtures.parse (text_or_braces (Some (js "null"))) = Some VNull)
    by reflexivity.
  split; [exact Hq | split; [exact Hp |]].
  exact (null_result_fails Fixtures.parse (Fixtures.replying (Some (js "null")))
           (Fixtures.dialog persona "A warm narrator")
           (fun _ => Response (Some (js "null"))) (Some (js "null"))
           Hq eq_refl eq_refl Hp).
Defined.

(** ** The analyze action: outcome, frame and failure conditions *)

Import ResponseSchema FinderSession CardView.

Lemma handleAnalyze_replied
  (JSON_parse : jsstring -> option value) (GoogleGenAI : completion Client)
  (d : Dialog) (result : value) :
  replied JSON_parse GoogleGenAI d result ->
  handleAnalyze JSON_parse GoogleGenAI d
  = match recommendation (mode d) result with
    | Normal rec => succeeded_with rec d
    | Throws => failed_after_sending d
    end.
Proof.
  intros (Hq & ai & text & Hai & Hr & Hp).
  destruct (recommendation (mode d) result) as [rec|] eqn:E.
  - eapply handleAnalyze_success; eassumption.
  - eapply handleAnalyze_unusable; eassumption.
Qed.

Lemma replied_fixture (d : Dialog) (t : jsstring) (result : value) :
  is_empty (trim (query d)) = false ->
  Fixtures.parse (text_or_braces (Some t)) = Some result ->
  replied Fixtures.parse (Fixtures.replying (Some t)) d result.
Proof.
  intros Hq Hp. split; [exact Hq|].
  exists (fun _ => Response (Some t)), (Some t). repeat split. exact Hp.
Qed.

(** X6: an analysis leaves the catalogue, the mode and the query as
    they were, whether it returned at once, failed or succeeded. *)
Theorem analysis_keeps_the_input
  (JSON_parse : jsstring -> option value) (GoogleGenAI : completion Client)
  (d : Dialog) :
  voices (handleAnalyze JSON_parse GoogleGenAI d) = voices d /\
  mode (handleAnalyze JSON_parse GoogleGenAI d) = mode d /\
  query (handleAnalyze JSON_parse GoogleGenAI d) = query d.
Proof.
  unfold handleAnalyze, attempt.
  destruct (is_empty (trim (query d))); [repeat split|].
  destruct GoogleGenAI as [ai|]; cbn; [|repeat split].
  change (request_for _) with (request_for d).
  destruct (ai (request_for d)) as [|text]; cbn; [repeat split|].
  destruct (JSON_parse (text_or_braces text)) as [result|]; cbn; [|repeat split].
  destruct (recommendation (mode d) result); cbn; repeat split.
Qed.

(** X7: an analysis of a query that is not blank ends in exactly one of
    two ways, whatever the dialog showed before.  Either the failure
    message is set and shown on the status line, the error is logged
    once and no record is passed on; or no error is set, the status line
    shows the hint, nothing is logged and one record is passed on, after
    one request. *)
Theorem analysis_fails_or_delivers
  (JSON_parse : jsstring -> option value) (GoogleGenAI : completion Client)
  (d : Dialog) :
  is_empty (trim (query d)) = false ->
  (error (handleAnalyze JSON_parse GoogleGenAI d) = Some failure_message /\
   status (handleAnalyze JSON_parse GoogleGenAI d) = failure_message /\
   logged (handleAnalyze JSON_parse GoogleGenAI d) = S (logged d) /\
   recommended (handleAnalyze JSON_parse GoogleGenAI d) = recommended d)
  \/
  (error (handleAnalyze JSON_parse GoogleGenAI d) = None /\
   status (handleAnalyze JSON_parse GoogleGenAI d) = hint /\
   logged (handleAnalyze JSON_parse GoogleGenAI d) = logged d /\
   sent (handleAnalyze JSON_parse GoogleGenAI d) = sent d ++ [request_for d] /\
   exists rec,
     recommended (handleAnalyze JSON_parse GoogleGenAI d) = recommended d ++ [rec]).
Proof.
  intros Hq. unfold handleAnalyze, attempt. rewrite Hq.
  destruct GoogleGenAI as [ai|]; cbn; [|left; repeat split].
  change (request_for _) with (request_for d).
  destruct (ai (request_for d)) as [|text]; cbn; [left; repeat split|].
  destruct (JSON_parse (text_or_braces text)) as [result|]; cbn; [|left; repeat split].
  destruct (recommendation (mode d) result) as [rec|]; cbn; [|left; repeat split].
  right. repeat split. exists rec. reflexivity.
Qed.

(** A dialog that shows the failure of an earlier analysis. *)
Lemma analysis_fails_or_delivers_witness :
  is_empty (trim (query (setError (Some failure_message)
                           (Fixtures.dialog script "Alex: We found it.")))) = false /\
  ((error (handleAnalyze Fixtures.parse (Fixtures.replying (Some Fixtures.script_reply_text))
             (setError (Some failure_message) (Fixtures.dialog script "Alex: We found it.")))
    = Some failure_message /\
    status (handleAnalyze Fixtures.parse (Fixtures.replying (Some Fixtures.script_reply_text))
              (setError (Some failure_message) (Fixtures.dialog script "Alex: We found it.")))
    = failure_message /\
    logged (handleAnalyze Fixtures.parse (Fixtures.replying (Some Fixtures.script_reply_text))
              (setError (Some failure_message) (Fixtures.dialog script "Alex: We found it.")))
    = S (logged (setError (Some failure_message) (Fixtures.dialog script "Alex: We found it."))) /\
    recommended (handleAnalyze Fixtures.parse (Fixtures.replying (Some Fixtures.script_reply_text))
                   (setError (Some failure_message) (Fixtures.dialog script "Alex: We found it.")))
    = recommended (setError (Some failure_message) (Fixtures.dialog script "Alex: We found it.")))
   \/
   (error (handleAnalyze Fixtures.parse (Fixtures.replying (Some Fixtures.script_reply_text))
             (setError (Some failure_message) (Fixtures.dialog script "Alex: We found it.")))
    = None /\
    status (handleAnalyze Fixtures.parse (Fixtures.replying (Some Fixtures.script_reply_text))
              (setError (Some failure_message) (Fixtures.dialog script "Alex: We found it.")))
    = hint /\
    logged (handleAnalyze Fixtures.parse (Fixtures.replying (Some Fixtures.script_reply_text))
              (setError (Some failure_message) (Fixtures.dialog script "Alex: We found it.")))
    = logged (setError (Some failure_message) (Fixtures.dialog script "Alex: We found it.")) /\
    sent (handleAnalyze Fixtures.parse (Fixtures.replying (Some Fixtures.script_reply_text))
            (setError (Some failure_message) (Fixtures.dialog script "Alex: We found it.")))
    = sent (setError (Some failure_message) (Fixtures.dialog script "Alex: We found it."))
      ++ [request_for (setError (Some failure_message)
                         (Fixtures.dialog script "Alex: We found it."))] /\
    exists rec,
      recommended (handleAnalyze Fixtures.parse (Fixtures.replying (Some Fixtures.script_reply_text))
                     (setError (Some failure_message) (Fixtures.dialog script "Alex: We found it.")))
      = recommended (setError (Some failure_message)
                       (Fixtures.dialog script "Alex: We found it.")) ++ [rec])).
Proof.
  assert (Hq : is_empty (trim (query (setError (Some failure_message)
                 (Fixtures.dialog script "Alex: We found it.")))) = false) by reflexivity.
  split; [exact Hq|].
  exact (analysis_fails_or_delivers Fixtures.parse
           (Fixtures.replying (Some Fixtures.script_reply_text))
           (setError (Some failure_message) (Fixtures.dialog script "Alex: We found it."))
           Hq).
Defined.

Lemma mapM_get_unreadable (k : jsstring) (parts : list value) :
  forallb readable parts = false -> mapM (fun p => get p k) parts = Throws.
Proof.
  induction parts as [|p parts IH]; cbn [forallb mapM]; [discriminate|].
  unfold get at 1. destruct (readable p); cbn [andb bind].
  - intros H. rewrite (IH H). reflexivity.
  - reflexivity.
Qed.

Lemma recommendation_script_unusable (result : value) :
  usable_parts (field result (js "scriptParts")) = false ->
  recommendation script result = Throws.
Proof.
  intros H. destruct (readable result) eqn:Hr;
    [|apply recommendation_unreadable, Hr].
  unfold usable_parts in H. unfold recommendation.
  rewrite !(get_readable result _ Hr). cbn [bind].
  destruct (or_else (field result (js "scriptParts")) (VArray [])) as [| | | | |parts|];
    try reflexivity.
  unfold array_map. rewrite (mapM_get_unreadable _ parts H). reflexivity.
Qed.

(** When normalising a parsed reply throws. *)
Lemma recommendation_throws_iff (m : Mode) (result : value) :
  recommendation m result = Throws <->
  readable result = false \/
  (m = script /\ usable_parts (field result (js "scriptParts")) = false).
Proof.
  split.
  - intros H. destruct (readable result) eqn:Hr; [|left; reflexivity]. right.
    destruct m.
    + rewrite (recommendation_persona result Hr) in H. discriminate.
    + split; [reflexivity|].
      destruct (usable_parts (field result (js "scriptParts"))) eqn:Hu; [|reflexivity].
      unfold usable_parts in Hu.
      destruct (or_else (field result (js "scriptParts")) (VArray []))
        as [| | | | |parts|] eqn:E; try discriminate.
      rewrite (recommendation_script result parts Hr E Hu) in H. discriminate.
  - intros [H | [-> H]].
    + apply recommendation_unreadable, H.
    + apply recommendation_script_unusable, H.
Qed.

(** X8: once the reply has parsed, the analysis fails exactly when
    the parsed value is [null], or, in script mode, when its script parts
    cannot be mapped over: a truthy value that is not an array, or an
    array that holds [null]. *)
Theorem parsed_reply_fails_exactly_when
  (JSON_parse : jsstring -> option value) (GoogleGenAI : completion Client)
  (d : Dialog) (result : value) :
  replied JSON_parse GoogleGenAI d result ->
  (error (handleAnalyze JSON_parse GoogleGenAI d) = Some failure_message <->
   readable result = false \/
   (mode d = script /\ usable_parts (field result (js "scriptParts")) = false)).
Proof.
  intros H. rewrite (handleAnalyze_replied _ _ _ _ H), <- recommendation_throws_iff.
  destruct (recommendation (mode d) result); cbn; split; congruence.
Qed.

(** The reply whose one script part is [null], in script mode. *)
Lemma parsed_reply_fails_exactly_when_witness :
  replied Fixtures.parse (Fixtures.replying (Some Fixtures.null_part_text))
    (Fixtures.dialog script "Alex: We found it.") Fixtures.null_part /\
  usable_parts (field Fixtures.null_part (js "scriptParts")) = false /\
  (error (handleAnalyze Fixtures.parse (Fixtures.replying (Some Fixtures.null_part_text))
            (Fixtures.dialog script "Alex: We found it."))
   = Some failure_message <->
   readable Fixtures.null_part = false \/
   (mode (Fixtures.dialog script "Alex: We found it.") = script /\
    usable_parts (field Fixtures.null_part (js "scriptParts")) = false)).
Proof.
  assert (H : replied Fixtures.parse (Fixtures.replying (Some Fixtures.null_part_text))
                (Fixtures.dialog script "Alex: We found it.") Fixtures.null_part)
    by (apply replied_fixture; reflexivity).
  split; [exact H | split; [reflexivity|]].
  exact (parsed_reply_fails_exactly_when _ _ _ _ H).
Defined.

Lemma recommendation_texts (m : Mode) (result : value) (rec : AiRecommendation) :
  recommendation m result = Normal rec ->
  systemInstruction rec = or_else (field result (js "systemInstruction")) (VString []) /\
  sampleText rec = or_else (field result (js "sampleText")) (VString []).
Proof.
  destruct m; unfold recommendation, get; destruct (readable result); try discriminate;
    cbn [bind].
  - intros [= <-]. split; reflexivity.
  - destruct (array_map _ _); [|discriminate]. cbn [bind].
    intros [= <-]. split; reflexivity.
Qed.

Lemma or_else_text (v : value) :
  or_else v (VString []) = VString [] \/ truthy (or_else v (VString [])) = true.
Proof.
  unfold or_else. destruct (truthy v) eqn:E; [right; exact E | left; reflexivity].
Qed.

Lemma or_else_array (v : value) : truthy (or_else v (VArray [])) = true.
Proof.
  unfold or_else. destruct (truthy v) eqn:E; [exact E | reflexivity].
Qed.

(** X9: no member of a record passed to the handler is [undefined] or
    [null]: the voice names are truthy, the instruction and the sample
    text are each the empty string or truthy, the multi-speaker mark is
    a boolean, [true] or [false], and script parts, where present, are
    truthy. *)
Theorem delivered_members_are_never_nullish
  (JSON_parse : jsstring -> option value) (GoogleGenAI : completion Client)
  (d : Dialog) (rec : AiRecommendation) :
  recommended (handleAnalyze JSON_parse GoogleGenAI d) = recommended d ++ [rec] ->
  truthy (voiceNames rec) = true /\
  (systemInstruction rec = VString [] \/ truthy (systemInstruction rec) = true) /\
  (sampleText rec = VString [] \/ truthy (sampleText rec) = true) /\
  (exists b, isMultiSpeaker rec = Some b) /\
  (forall v, scriptParts rec = Some v -> truthy v = true).
Proof.
  intros Hrec.
  destruct (handleAnalyze_delivers _ _ _ _ Hrec) as (ai & text & result & _ & _ & _ & _ & H).
  destruct (recommendation_texts _ _ _ H) as [-> ->].
  split; [|split; [apply or_else_text | split; [apply or_else_text|]]].
  - destruct (mode d).
    + unfold recommendation, get in H. destruct (readable result); [|discriminate].
      cbn [bind] in H. injection H as <-. apply or_else_array.
    + destruct (recommendation_script_inv _ _ H) as (parts & read & _ & -> & _). reflexivity.
  - destruct (mode d).
    + destruct (recommendation_persona_inv _ _ H) as [-> ->].
      split; [eexists; reflexivity | discriminate].
    + destruct (recommendation_script_inv _ _ H) as (parts & read & _ & _ & -> & ->).
      split; [eexists; reflexivity | intros v [= <-]; reflexivity].
Qed.

(** The partial reply in persona mode: the instruction it lacks is the
    empty string in the record. *)
Lemma delivered_members_are_never_nullish_witness :
  recommended
    (handleAnalyze Fixtures.parse (Fixtures.replying (Some Fixtures.partial_reply_text))
       (Fixtures.dialog persona "A warm narrator"))
  = recommended (Fixtures.dialog persona "A warm narrator") ++ [Fixtures.partial_record] /\
  truthy (voiceNames Fixtures.partial_record) = true /\
  (systemInstruction Fixtures.partial_record = VString [] \/
   truthy (systemInstruction Fixtures.partial_record) = true) /\
  (sampleText Fixtures.partial_record = VString [] \/
   truthy (sampleText Fixtures.partial_record) = true) /\
  (exists b, isMultiSpeaker Fixtures.partial_record = Some b) /\
  (forall v, scriptParts Fixtures.partial_record = Some v -> truthy v = true).
Proof.
  assert (H : recommended
    (handleAnalyze Fixtures.parse (Fixtures.replying (Some Fixtures.partial_reply_text))
       (Fixtures.dialog persona "A warm narrator"))
    = recommended (Fixtures.dialog persona "A warm narrator") ++ [Fixtures.partial_record])
    by (vm_compute; reflexivity).
  split; [exact H|].
  exact (delivered_members_are_never_nullish _ _ _ _ H).
Defined.

Lemma Set_add_length (s : list value) (v : value) :
  (List.length (Set_add s v) <= S (List.length s))%nat.
Proof.
  unfold Set_add. destruct (existsb (same_value_zero v) s); [lia|].
  rewrite length_app. simpl. lia.
Qed.

Lemma fold_Set_add_length (l acc : list value) :
  (List.length (fold_left Set_add l acc) <= List.length acc + List.length l)%nat.
Proof.
  revert acc. induction l as [|x l IH]; intros acc; cbn [fold_left List.length]; [lia|].
  specialize (IH (Set_add acc x)). pose proof (Set_add_length acc x). lia.
Qed.

Lemma mapM_length {A B} (f : A -> completion B) (l : list A) (r : list B) :
  mapM f l = Normal r -> List.length r = List.length l.
Proof.
  revert r. induction l as [|x l IH]; intros r; cbn [mapM].
  - intros [= <-]. reflexivity.
  - destruct (f x) as [y|]; [|discriminate]. cbn [bind].
    destruct (mapM f l) as [ys|]; [|discriminate]. cbn [bind].
    intros [= <-]. simpl. rewrite (IH ys eq_refl). reflexivity.
Qed.

(** X10: in script mode there are never more voice names than script
    parts, and there is a voice name as soon as there is a script part. *)
Theorem voiceNames_bounded_by_scriptParts
  (JSON_parse : jsstring -> option value) (GoogleGenAI : completion Client)
  (d : Dialog) (rec : AiRecommendation) :
  mode d = script ->
  recommended (handleAnalyze JSON_parse GoogleGenAI d) = recommended d ++ [rec] ->
  exists parts listed,
    scriptParts rec = Some (VArray parts) /\
    voiceNames rec = VArray listed /\
    (List.length listed <= List.length parts)%nat /\
    (listed = [] <-> parts = []).
Proof.
  intros Hm Hrec.
  destruct (handleAnalyze_delivers _ _ _ _ Hrec) as (ai & text & result & _ & _ & _ & _ & H).
  rewrite Hm in H.
  destruct (recommendation_script_inv _ _ H) as (parts & read & Hread & Hv & _ & Hp).
  exists parts, (new_Set read). split; [exact Hp | split; [exact Hv|]].
  pose proof (mapM_length _ _ _ Hread) as Hlen.
  split.
  - pose proof (fold_Set_add_length read []) as Hle. unfold new_Set.
    simpl in Hle. lia.
  - split.
    + intros Hnil. destruct read as [|x read].
      * destruct parts; [reflexivity | discriminate Hlen].
      * assert (Hnd : all_different []) by (intros [|i] j a b _ Ha; discriminate Ha).
        destruct (fold_Set_add_spec (x :: read) [] Hnd (Forall_nil _)) as (_ & Hin & _).
        specialize (Hin x (or_introl eq_refl)). unfold new_Set in Hnil.
        rewrite Hnil in Hin. destruct Hin.
    + intros ->. destruct read; [reflexivity | discriminate Hlen].
Qed.

(** The script reply of three turns lists two voices. *)
Lemma voiceNames_bounded_by_scriptParts_witness :
  mode (Fixtures.dialog script "Alex: We found it.") = script /\
  recommended
    (handleAnalyze Fixtures.parse (Fixtures.replying (Some Fixtures.script_reply_text))
       (Fixtures.dialog script "Alex: We found it."))
  = recommended (Fixtures.dialog script "Alex: We found it.") ++ [Fixtures.script_record] /\
  exists parts listed,
    scriptParts Fixtures.script_record = Some (VArray parts) /\
    voiceNames Fixtures.script_record = VArray listed /\
    (List.length listed <= List.length parts)%nat /\
    (listed = [] <-> parts = []).
Proof.
  assert (H1 : mode (Fixtures.dialog script "Alex: We found it.") = script)
    by reflexivity.
  assert (H2 : recommended
    (handleAnalyze Fixtures.parse (Fixtures.replying (Some Fixtures.script_reply_text))
       (Fixtures.dialog script "Alex: We found it."))
    = recommended (Fixtures.dialog script "Alex: We found it.") ++ [Fixtures.script_record])
    by (vm_compute; reflexivity).
  split; [exact H1 | split; [exact H2 |]].
  exact (voiceNames_bounded_by_scriptParts _ _ _ _ H1 H2).
Defined.

(** Normalising reads the members the schema requires and no other. *)
Lemma recommendation_frame (m : Mode) (r1 r2 : value) :
  readable r1 = readable r2 ->
  (forall k, In k (required (schema m)) -> field r1 k = field r2 k) ->
  recommendation m r1 = recommendation m r2.
Proof.
  intros Hr Hf. destruct m; unfold recommendation, get; rewrite Hr;
    destruct (readable r2); try reflexivity; cbn [bind].
  - rewrite (Hf (js "recommendedVoices")), (Hf (js "systemInstruction")),
      (Hf (js "sampleText")) by (cbn; tauto).
    reflexivity.
  - rewrite (Hf (js "scriptParts")), (Hf (js "systemInstruction")),
      (Hf (js "sampleText")) by (cbn; tauto).
    reflexivity.
Qed.

(** X11: of a parsed reply, only the members that the response schema
    of the mode requires have an effect: two replies that agree on
    them, both [null] or neither, leave the dialog in the same state. *)
Theorem only_required_members_matter
  (JSON_parse : jsstring -> option value) (client1 client2 : completion Client)
  (d : Dialog) (r1 r2 : value) :
  replied JSON_parse client1 d r1 ->
  replied JSON_parse client2 d r2 ->
  readable r1 = readable r2 ->
  (forall k, In k (required (schema (mode d))) -> field r1 k = field r2 k) ->
  handleAnalyze JSON_parse client1 d = handleAnalyze JSON_parse client2 d.
Proof.
  intros H1 H2 Hr Hf.
  rewrite (handleAnalyze_replied _ _ _ _ H1), (handleAnalyze_replied _ _ _ _ H2).
  rewrite (recommendation_frame (mode d) r1 r2 Hr Hf). reflexivity.
Qed.

Lemma replied_more (d : Dialog) (t : jsstring) (result : value) :
  is_empty (trim (query d)) = false ->
  MoreFixtures.parse (text_or_braces (Some t)) = Some result ->
  replied MoreFixtures.parse (Fixtures.replying (Some t)) d result.
Proof.
  intros Hq Hp. split; [exact Hq|].
  exists (fun _ => Response (Some t)), (Some t). repeat split. exact Hp.
Qed.

(** The partial reply, and the same reply with a note added. *)
Lemma only_required_members_matter_witness :
  replied MoreFixtures.parse (Fixtures.replying (Some Fixtures.partial_reply_text))
    (Fixtures.dialog persona "A warm narrator") Fixtures.partial_reply /\
  replied MoreFixtures.parse (Fixtures.replying (Some MoreFixtures.annotated_reply_text))
    (Fixtures.dialog persona "A warm narrator") MoreFixtures.annotated_reply /\
  Fixtures.partial_reply <> MoreFixtures.annotated_reply /\
  handleAnalyze MoreFixtures.parse (Fixtures.replying (Some Fixtures.partial_reply_text))
    (Fixtures.dialog persona "A warm narrator")
  = handleAnalyze MoreFixtures.parse
      (Fixtures.replying (Some MoreFixtures.annotated_reply_text))
      (Fixtures.dialog persona "A warm narrator").
Proof.
  assert (H1 : replied MoreFixtures.parse
                 (Fixtures.replying (Some Fixtures.partial_reply_text))
                 (Fixtures.dialog persona "A warm narrator") Fixtures.partial_reply)
    by (apply replied_more; reflexivity).
  assert (H2 : replied MoreFixtures.parse
                 (Fixtures.replying (Some MoreFixtures.annotated_reply_text))
                 (Fixtures.dialog persona "A warm narrator") MoreFixtures.annotated_reply)
    by (apply replied_more; reflexivity).
  split; [exact H1 | split; [exact H2 | split; [discriminate|]]].
  refine (only_required_members_matter _ _ _ _ _ _ H1 H2 eq_refl _).
  intros k [<-|[<-|[<-|[]]]]; reflexivity.
Defined.

(** ** The dialog between its events *)

Section SessionFacts.

Variable JSON_parse : jsstring -> option value.
Variable GoogleGenAI : completion Client.

(** A click whose reply arrives before anything else happens is the
    analyze action in one piece. *)
Lemma start_then_settle (d : Dialog) :
  dialog (step JSON_parse GoogleGenAI Settle (start GoogleGenAI (idle d)))
  = handleAnalyze JSON_parse GoogleGenAI d.
Proof.
  unfold start, handleAnalyze, attempt, idle. cbn [dialog awaiting closes].
  destruct (is_empty (trim (query d))); [reflexivity|].
  destruct GoogleGenAI as [ai|]; [|reflexivity].
  cbn [step awaiting app dialog]. unfold resume. cbn [call_ai call_request call_mode].
  change (request_for (setError None (setLoading true d))) with (request_for d).
  change (request_for (send _ _)) with (request_for d).
  destruct (ai (request_for d)) as [|text]; [reflexivity|].
  destruct (JSON_parse (text_or_braces text)) as [result|]; [|reflexivity].
  change (mode (send _ _)) with (mode d).
  destruct (recommendation (mode d) result); reflexivity.
Qed.

Lemma step_one_call_at_most (e : Event) (s : Session) :
  one_call_at_most s -> one_call_at_most (step JSON_parse GoogleGenAI e s).
Proof.
  intros H. destruct e; cbn [step].
  - exact H.
  - exact H.
  - destruct (nth_error (examples (mode (dialog s))) i) as [[l t]|]; exact H.
  - unfold disabled. destruct (loading (dialog s)) eqn:Hl; cbn [orb]; [exact H|].
    destruct (is_empty (trim (query (dialog s)))) eqn:Hq; [exact H|].
    destruct H as [H | [_ H]]; [|congruence].
    unfold start. rewrite Hq. destruct GoogleGenAI as [ai|].
    + right. cbn. rewrite H. split; [eexists; reflexivity | reflexivity].
    + left. exact H.
  - exact H.
  - destruct (eqs key (js "Escape")); exact H.
  - destruct H as [H | [[c H] _]]; rewrite H; [left; exact H | left; reflexivity].
Qed.

Lemma run_one_call_at_most (events : list Event) (s : Session) :
  one_call_at_most s -> one_call_at_most (run JSON_parse GoogleGenAI events s).
Proof.
  revert s. induction events as [|e events IH]; intros s H; [exact H|].
  apply IH, step_one_call_at_most, H.
Qed.

(** X12: whatever the user does, and whenever replies arrive, at most
    one call of the model is pending; while one is, the loading flag is
    up and the Analyze button is disabled. *)
Theorem at_most_one_call_is_pending (events : list Event) (d : Dialog) :
  (List.length (awaiting (run JSON_parse GoogleGenAI events (idle d))) <= 1)%nat /\
  (awaiting (run JSON_parse GoogleGenAI events (idle d)) <> [] ->
   loading (dialog (run JSON_parse GoogleGenAI events (idle d))) = true /\
   disabled (dialog (run JSON_parse GoogleGenAI events (idle d))) = true).
Proof.
  assert (H : one_call_at_most (run JSON_parse GoogleGenAI events (idle d)))
    by (apply run_one_call_at_most; left; reflexivity).
  destruct H as [H | [[c H] Hl]]; rewrite H.
  - split; [simpl; lia | congruence].
  - split; [simpl; lia|]. intros _. unfold disabled. rewrite Hl. split; reflexivity.
Qed.

Lemma step_in_flight (c : Call) (d0 : Dialog) (e : Event) (s : Session) :
  quiet e = true -> in_flight c d0 s ->
  in_flight c d0 (step JSON_parse GoogleGenAI e s).
Proof.
  intros Hq H. destruct e; cbn [step]; try exact H; try discriminate Hq.
  - destruct (nth_error (examples (mode (dialog s))) i) as [[l t]|]; exact H.
  - unfold disabled. pose proof H as (_ & Hl & _). rewrite Hl. exact H.
  - destruct (eqs key (js "Escape")); exact H.
Qed.

Lemma run_in_flight (c : Call) (d0 : Dialog) (events : list Event) (s : Session) :
  forallb quiet events = true -> in_flight c d0 s ->
  in_flight c d0 (run JSON_parse GoogleGenAI events s).
Proof.
  revert s. induction events as [|e events IH]; intros s Hq H; [exact H|].
  cbn [forallb] in Hq. apply andb_true_iff in Hq. destruct Hq as [He Hq].
  apply (IH _ Hq), step_in_flight; assumption.
Qed.

Lemma resume_fields (c : Call) (x y : Dialog) :
  error x = error y -> sent x = sent y ->
  recommended x = recommended y -> logged x = logged y ->
  error (resume JSON_parse c x) = error (resume JSON_parse c y) /\
  sent (resume JSON_parse c x) = sent (resume JSON_parse c y) /\
  recommended (resume JSON_parse c x) = recommended (resume JSON_parse c y) /\
  logged (resume JSON_parse c x) = logged (resume JSON_parse c y) /\
  loading (resume JSON_parse c x) = false.
Proof.
  intros He Hs Hr Hl. unfold resume.
  destruct (call_ai c (call_request c)) as [|text]; cbn;
    [repeat split; congruence|].
  destruct (JSON_parse (text_or_braces text)) as [result|]; cbn;
    [|repeat split; congruence].
  destruct (recommendation (call_mode c) result); cbn; repeat split; congruence.
Qed.

End SessionFacts.

(** X13: what the user does while the reply is awaited has no part in
    what the reply does.  After a click on an idle dialog that sent its
    request, any typing, choice of mode or chip, key, close or further
    click, and then the reply, leave the error, the requests sent, the
    records passed on and the log exactly as the analyze action of the
    dialog as it was at the click: the reply is normalised for the mode
    the request was sent in. *)
Theorem edits_in_flight_do_not_reach_the_reply
  (JSON_parse : jsstring -> option value) (GoogleGenAI : completion Client)
  (d : Dialog) (ai : Client) (events : list Event) :
  loading d = false ->
  is_empty (trim (query d)) = false ->
  GoogleGenAI = Normal ai ->
  forallb quiet events = true ->
  awaiting (run JSON_parse GoogleGenAI (ClickAnalyze :: events ++ [Settle]) (idle d)) = [] /\
  loading (dialog (run JSON_parse GoogleGenAI (ClickAnalyze :: events ++ [Settle]) (idle d)))
  = false /\
  error (dialog (run JSON_parse GoogleGenAI (ClickAnalyze :: events ++ [Settle]) (idle d)))
  = error (handleAnalyze JSON_parse GoogleGenAI d) /\
  sent (dialog (run JSON_parse GoogleGenAI (ClickAnalyze :: events ++ [Settle]) (idle d)))
  = sent (handleAnalyze JSON_parse GoogleGenAI d) /\
  recommended (dialog (run JSON_parse GoogleGenAI (ClickAnalyze :: events ++ [Settle]) (idle d)))
  = recommended (handleAnalyze JSON_parse GoogleGenAI d) /\
  logged (dialog (run JSON_parse GoogleGenAI (ClickAnalyze :: events ++ [Settle]) (idle d)))
  = logged (handleAnalyze JSON_parse GoogleGenAI d).
Proof.
  intros Hl Hq Hai Hev.
  rewrite <- (start_then_settle JSON_parse GoogleGenAI d).
  unfold run. cbn [fold_left]. rewrite fold_left_app. cbn [fold_left].
  change (fold_left (fun s e => step JSON_parse GoogleGenAI e s) events)
    with (run JSON_parse GoogleGenAI events).
  assert (Hclick : step JSON_parse GoogleGenAI ClickAnalyze (idle d)
                   = start GoogleGenAI (idle d)).
  { cbn [step]. unfold disabled, idle. cbn [dialog]. rewrite Hl, Hq. reflexivity. }
  rewrite Hclick.
  set (c := {| call_mode := mode d; call_ai := ai; call_request := request_for d |}).
  assert (Hstart : start GoogleGenAI (idle d)
                   = {| dialog := send (request_for d) (setError None (setLoading true d));
                        awaiting := [c]; closes := 0%nat |}).
  { unfold start, idle. cbn [dialog awaiting closes]. rewrite Hq, Hai. reflexivity. }
  rewrite Hstart.
  set (s0 := {| dialog := send (request_for d) (setError None (setLoading true d));
                awaiting := [c]; closes := 0%nat |}).
  assert (H0 : in_flight c (dialog s0) s0) by (repeat split).
  pose proof (run_in_flight JSON_parse GoogleGenAI c (dialog s0) events s0 Hev H0)
    as (Ha & _ & He & Hs & Hr & Hg).
  cbn [step]. rewrite Ha. cbn [awaiting dialog].
  destruct (resume_fields JSON_parse c _ _ He Hs Hr Hg) as (E1 & E2 & E3 & E4 & E5).
  repeat split; assumption.
Qed.

(** In script mode the user clicks Analyze, switches to persona mode,
    types, clicks again and presses Escape; then the reply arrives and
    the script record is passed on. *)
Lemma edits_in_flight_do_not_reach_the_reply_witness :
  loading (Fixtures.dialog script "Alex: We found it.") = false /\
  is_empty (trim (query (Fixtures.dialog script "Alex: We found it."))) = false /\
  forallb quiet [PickMode persona; Input (js "A warm narrator"); ClickAnalyze;
                 KeyDown (js "Escape")] = true /\
  mode (dialog (run Fixtures.parse (Fixtures.replying (Some Fixtures.script_reply_text))
                  (ClickAnalyze ::
                     [PickMode persona; Input (js "A warm narrator"); ClickAnalyze;
                      KeyDown (js "Escape")] ++ [Settle])
                  (idle (Fixtures.dialog script "Alex: We found it."))))
  = persona /\
  recommended (handleAnalyze Fixtures.parse (Fixtures.replying (Some Fixtures.script_reply_text))
                 (Fixtures.dialog script "Alex: We found it."))
  = [Fixtures.script_record] /\
  recommended
    (dialog (run Fixtures.parse (Fixtures.replying (Some Fixtures.script_reply_text))
               (ClickAnalyze ::
                  [PickMode persona; Input (js "A warm narrator"); ClickAnalyze;
                   KeyDown (js "Escape")] ++ [Settle])
               (idle (Fixtures.dialog script "Alex: We found it."))))
  = recommended (handleAnalyze Fixtures.parse
                   (Fixtures.replying (Some Fixtures.script_reply_text))
                   (Fixtures.dialog script "Alex: We found it.")).
Proof.
  assert (Hl : loading (Fixtures.dialog script "Alex: We found it.") = false)
    by reflexivity.
  assert (Hq : is_empty (trim (query (Fixtures.dialog script "Alex: We found it."))) = false)
    by reflexivity.
  assert (He : forallb quiet [PickMode persona; Input (js "A warm narrator"); ClickAnalyze;
                              KeyDown (js "Escape")] = true) by reflexivity.
  split; [exact Hl | split; [exact Hq | split; [exact He |]]].
  split; [vm_compute; reflexivity | split; [vm_compute; reflexivity|]].
  exact (proj1 (proj2 (proj2 (proj2 (proj2
           (edits_in_flight_do_not_reach_the_reply Fixtures.parse
              (Fixtures.replying (Some Fixtures.script_reply_text))
              (Fixtures.dialog script "Alex: We found it.")
              (fun _ => Response (Some Fixtures.script_reply_text))
              [PickMode persona; Input (js "A warm narrator"); ClickAnalyze;
               KeyDown (js "Escape")]
              Hl Hq eq_refl He)))))).
Defined.

(** ** The heading normalisation: what it leaves alone *)

Lemma visible_trimStart (s : jsstring) : visible (trimStart s) = visible s.
Proof.
  induction s as [|c s IH]; [reflexivity|].
  cbn [trimStart]. destruct (is_space c) eqn:E; [|reflexivity].
  rewrite IH. unfold visible. cbn [filter]. rewrite E. reflexivity.
Qed.

Lemma hashes_Some (s t : jsstring) : hashes s = Some t -> s = HASH :: HASH :: t.
Proof.
  unfold hashes. destruct s as [|a [|b s]]; try discriminate.
  destruct (N.eqb_spec a HASH) as [->|]; [|discriminate].
  destruct (N.eqb_spec b HASH) as [->|]; [|discriminate].
  intros [= <-]. reflexivity.
Qed.

Lemma match_here_visible (c : N) (r t : jsstring) :
  match_here (c :: r) = Some t ->
  visible (c :: r) = visible (c :: HASH :: HASH :: t).
Proof.
  unfold match_here. destruct (c =? LF); [discriminate|].
  rewrite spaces_hashes_trimStart. intros H. apply hashes_Some in H.
  unfold visible. cbn [filter]. fold (visible r). fold (visible (HASH :: HASH :: t)).
  rewrite <- (visible_trimStart r), H. reflexivity.
Qed.

Lemma replace_headings_visible (s : jsstring) :
  visible (replace_headings s) = visible s.
Proof.
  remember (List.length s) as n eqn:Hn. revert s Hn.
  induction n as [n IH] using lt_wf_ind. intros s ->.
  destruct s as [|c r]; [rewrite replace_headings_nil; reflexivity|].
  destruct (match_here (c :: r)) as [t|] eqn:E.
  - rewrite (replace_headings_match c r t E), (match_here_visible c r t E).
    pose proof (IH (List.length t) (match_here_shorter _ _ E) t eq_refl) as Ht.
    unfold visible in *. cbn [filter].
    change (is_space LF) with true. change (is_space HASH) with false.
    cbn [negb]. rewrite Ht. reflexivity.
  - rewrite (replace_headings_skip c r E).
    pose proof (IH (List.length r) (Nat.lt_succ_diag_r _) r eq_refl) as Hr.
    unfold visible in *. cbn [filter]. rewrite Hr. reflexivity.
Qed.

(** X14: the normalisation changes white space only: the code units
    of the text that are not white space come out the same, in the same
    order. *)
Theorem formattedInstruction_keeps_the_visible_text (systemInstruction : jsstring) :
  visible (formattedInstruction systemInstruction) = visible systemInstruction.
Proof.
  rewrite formattedInstruction_replace. apply replace_headings_visible.
Qed.

Lemma has_marker_trimStart (s : jsstring) :
  has_marker s = false -> has_marker (trimStart s) = false.
Proof.
  induction s as [|c s IH]; [reflexivity|].
  intros H. cbn [trimStart]. destruct (is_space c); [|exact H].
  apply IH. cbn [has_marker] in H. destruct s as [|b s]; [reflexivity|].
  apply orb_false_iff in H. tauto.
Qed.

Lemma has_marker_hashes (s : jsstring) : has_marker s = false -> hashes s = None.
Proof.
  unfold hashes. destruct s as [|a [|b s]]; try reflexivity.
  cbn [has_marker]. intros H. apply orb_false_iff in H. destruct H as [-> _].
  reflexivity.
Qed.

Lemma replace_headings_no_marker (s : jsstring) :
  has_marker s = false -> replace_headings s = s.
Proof.
  induction s as [|c r IH]; [intros _; apply replace_headings_nil|].
  intros H.
  assert (Hr : has_marker r = false).
  { cbn [has_marker] in H. destruct r as [|b r]; [reflexivity|].
    apply orb_false_iff in H. tauto. }
  assert (E : match_here (c :: r) = None).
  { unfold match_here. destruct (c =? LF); [reflexivity|].
    rewrite spaces_hashes_trimStart.
    apply has_marker_hashes, has_marker_trimStart, Hr. }
  rewrite (replace_headings_skip c r E), (IH Hr). reflexivity.
Qed.

(** X15: a text in which no two hashes stand side by side is left as it
    is. *)
Theorem text_without_marker_is_unchanged (systemInstruction : jsstring) :
  has_marker systemInstruction = false ->
  formattedInstruction systemInstruction = systemInstruction.
Proof.
  intros H. rewrite formattedInstruction_replace.
  apply replace_headings_no_marker, H.
Qed.

(** Notes with single hashes and line feeds but no heading marker. *)
Lemma text_without_marker_is_unchanged_witness :
  has_marker (js "# Cast" ++ [LF; LF] ++ js "Alex is tense. Sarah #2 is calm.") = false /\
  formattedInstruction (js "# Cast" ++ [LF; LF] ++ js "Alex is tense. Sarah #2 is calm.")
  = js "# Cast" ++ [LF; LF] ++ js "Alex is tense. Sarah #2 is calm.".
Proof.
  assert (H : has_marker (js "# Cast" ++ [LF; LF] ++ js "Alex is tense. Sarah #2 is calm.")
              = false) by reflexivity.
  split; [exact H|].
  exact (text_without_marker_is_unchanged _ H).
Defined.

(** ** The copy action: timers that have run out *)

Lemma fold_clear_none (l : list N) (k : Card) :
  copiedSection k = None ->
  copiedSection (fold_left (fun k _ => setCopiedSection None k) l k) = None.
Proof.
  revert k. induction l as [|x l IH]; intros k Hk; [exact Hk|].
  apply IH. reflexivity.
Qed.

Lemma fold_clear (l : list N) (k : Card) :
  copiedSection (fold_left (fun k _ => setCopiedSection None k) l k)
  = match l with [] => copiedSection k | _ :: _ => None end.
Proof.
  destruct l as [|x l]; [reflexivity|]. cbn [fold_left].
  apply fold_clear_none. reflexivity.
Qed.

Lemma filter_keeps_all {A} (f : A -> bool) (l : list A) :
  Forall (fun x => f x = true) l -> filter f l = l.
Proof.
  induction 1 as [|x l Hx _ IH]; cbn [filter]; [reflexivity|].
  rewrite Hx, IH. reflexivity.
Qed.

Lemma filter_keeps_none {A} (f : A -> bool) (l : list A) :
  Forall (fun x => f x = true) l -> filter (fun x => negb (f x)) l = [].
Proof.
  induction 1 as [|x l Hx _ IH]; cbn [filter]; [reflexivity|].
  rewrite Hx, IH. reflexivity.
Qed.

Lemma bounded_mounted (t : N) : bounded (mounted t).
Proof. constructor. Qed.

Lemma bounded_handleCopy (text section : jsstring) (k : Card) :
  bounded k -> bounded (handleCopy text section k).
Proof.
  unfold bounded, handleCopy. cbn [timeouts now setTimeout setCopiedSection writeText].
  intros H. apply Forall_app. split; [exact H|]. repeat constructor. lia.
Qed.

Lemma bounded_elapse (ms : N) (k : Card) : bounded k -> bounded (elapse ms k).
Proof.
  unfold bounded, elapse. cbn [timeouts now]. rewrite !Forall_forall.
  intros H t Ht. apply filter_In in Ht. specialize (H t (proj1 Ht)). lia.
Qed.

Lemma bounded_run (events : list CardEvent) (k : Card) :
  bounded k -> bounded (card_run events k).
Proof.
  revert k. induction events as [|e events IH]; intros k H; [exact H|].
  apply IH. destruct e; [apply bounded_handleCopy | apply bounded_elapse]; exact H.
Qed.

(** The delay after a copy every timer has run: nothing is pending and
    nothing is flagged. *)
Lemma copy_then_delay (text section : jsstring) (ms : N) (k : Card) :
  bounded k -> delay <= ms ->
  copiedSection (elapse ms (handleCopy text section k)) = None /\
  timeouts (elapse ms (handleCopy text section k)) = [].
Proof.
  intros Hb Hms.
  assert (Hdue : Forall (fun due => (due <=? now k + ms) = true)
                   (timeouts k ++ [now k + delay])).
  { apply Forall_app. split.
    - unfold bounded in Hb. rewrite Forall_forall in *. intros t Ht.
      apply N.leb_le. specialize (Hb t Ht). lia.
    - repeat constructor. apply N.leb_le. lia. }
  unfold elapse, handleCopy.
  cbn [timeouts now setTimeout setCopiedSection writeText copiedSection clipboard].
  rewrite (filter_keeps_all _ _ Hdue), (filter_keeps_none _ _ Hdue), fold_clear.
  split; [|reflexivity]. destruct (timeouts k); reflexivity.
Qed.

(** A copy on a card without pending timers is flagged for the delay. *)
Lemma copy_on_quiet_card (text section : jsstring) (e : N) (k : Card) :
  timeouts k = [] ->
  copiedSection (elapse e (handleCopy text section k))
  = if e <? delay then Some section else None.
Proof.
  intros H. unfold elapse, handleCopy.
  cbn [timeouts now setTimeout setCopiedSection writeText copiedSection clipboard].
  rewrite H. cbn [app filter].
  destruct (N.ltb_spec e delay), (N.leb_spec (now k + delay) (now k + e)); try lia;
    reflexivity.
Qed.

Lemma card_run_app (a b : list CardEvent) (k : Card) :
  card_run (a ++ b) k = card_run b (card_run a k).
Proof. unfold card_run. apply fold_left_app. Qed.

(** X16: the flag never sticks.  However the card was used before, once
    the delay has passed after a copy without another copy, no section is
    flagged and no timer is pending. *)
Theorem flag_is_cleared_after_the_delay
  (events : list CardEvent) (t0 : N) (text section : jsstring) (ms : N) :
  delay <= ms ->
  copiedSection (card_run (events ++ [Copy text section; Wait ms]) (mounted t0)) = None /\
  timeouts (card_run (events ++ [Copy text section; Wait ms]) (mounted t0)) = [].
Proof.
  intros Hms. rewrite card_run_app. cbn [card_run fold_left card_step].
  apply copy_then_delay; [|exact Hms].
  apply bounded_run, bounded_mounted.
Qed.

(** Two copies half a second apart, then three seconds. *)
Lemma flag_is_cleared_after_the_delay_witness :
  delay <= 3000 /\
  copiedSection
    (card_run ([Copy (js "Tense and hushed.") (js "instruction"); Wait 500]
               ++ [Copy (js "We found it.") (js "sample"); Wait 3000]) (mounted 0))
  = None /\
  timeouts
    (card_run ([Copy (js "Tense and hushed.") (js "instruction"); Wait 500]
               ++ [Copy (js "We found it.") (js "sample"); Wait 3000]) (mounted 0))
  = [].
Proof.
  assert (H : delay <= 3000) by discriminate.
  split; [exact H|].
  exact (flag_is_cleared_after_the_delay
           [Copy (js "Tense and hushed.") (js "instruction"); Wait 500]
           0 (js "We found it.") (js "sample") 3000 H).
Defined.

(** X17: copies that are at least the delay apart do not disturb each
    other.  However the card was used before, a section copied when the
    delay or more has passed since the copy before it is flagged for the
    delay, no less, and then cleared. *)
Theorem spaced_copies_are_independent
  (events : list CardEvent) (t0 : N) (a A b B : jsstring) (ms e : N) :
  delay <= ms ->
  copiedSection
    (card_run (events ++ [Copy a A; Wait ms; Copy b B; Wait e]) (mounted t0))
  = if e <? delay then Some B else None.
Proof.
  intros Hms.
  rewrite card_run_app. cbn [card_run fold_left card_step app].
  apply copy_on_quiet_card.
  apply (copy_then_delay a A ms _ (bounded_run events _ (bounded_mounted t0)) Hms).
Qed.

(** A copy, a wait of just the delay, a second copy, and one second. *)
Lemma spaced_copies_are_independent_witness :
  delay <= 2000 /\
  copiedSection
    (card_run ([Wait 40] ++ [Copy (js "Tense and hushed.") (js "instruction"); Wait 2000;
                            Copy (js "We found it.") (js "sample"); Wait 1000])
       (mounted 0))
  = (if 1000 <? delay then Some (js "sample") else None) /\
  (1000 <? delay) = true.
Proof.
  assert (H : delay <= 2000) by discriminate.
  split; [exact H | split; [|reflexivity]].
  exact (spaced_copies_are_independent [Wait 40] 0 (js "Tense and hushed.")
           (js "instruction") (js "We found it.") (js "sample") 2000 1000 H).
Defined.

(** ** The copy action: which section is flagged *)





(** ** The card on the records the dialog passes on *)

Lemma mapM_get_inv (k : jsstring) (parts read : list value) :
  mapM (fun p => get p k) parts = Normal read ->
  forallb readable parts = true /\ read = map (fun p => field p k) parts.
Proof.
  destruct (forallb readable parts) eqn:E.
  - rewrite (mapM_get_readable k parts E). intros [= <-]. split; reflexivity.
  - rewrite (mapM_get_unreadable k parts E). discriminate.
Qed.

Lemma mapM_row_readable (parts : list value) :
  forallb readable parts = true ->
  mapM row parts
  = Normal (map (fun p => {| row_speaker := field p (js "speaker");
                             row_voiceName := field p (js "voiceName");
                             row_text := field p (js "text") |}) parts).
Proof.
  induction parts as [|p parts IH]; cbn [forallb mapM map]; [reflexivity|].
  rewrite andb_true_iff. intros [Hp Hr]. unfold row at 1.
  rewrite !(get_readable p _ Hp). cbn [bind]. rewrite (IH Hr). reflexivity.
Qed.

(** X18: the column of the card evaluates without throwing on every
    record the dialog passed on.  For a record of persona mode the card
    is titled as a persona and quotes the sample text.  For a record of
    script mode it is titled as a script analysis and has one row per
    script part, in the order of the parts, holding the speaker, the
    voice name and the text read from the part; the voice named in a row
    is one of the record's voice names. *)
Theorem card_lays_out_a_delivered_record
  (JSON_parse : jsstring -> option value) (GoogleGenAI : completion Client)
  (d : Dialog) (rec : AiRecommendation) :
  recommended (handleAnalyze JSON_parse GoogleGenAI d) = recommended d ++ [rec] ->
  (mode d = persona ->
   title rec = js "AI Suggested Persona" /\
   column rec = Normal (Quote (sampleText rec))) /\
  (mode d = script ->
   title rec = js "AI Script Analysis" /\
   exists parts listed,
     scriptParts rec = Some (VArray parts) /\
     voiceNames rec = VArray listed /\
     column rec
     = Normal (Rows (map (fun p => {| row_speaker := field p (js "speaker");
                                      row_voiceName := field p (js "voiceName");
                                      row_text := field p (js "text") |}) parts)) /\
     (forall p, In p parts -> In (stored (field p (js "voiceName"))) listed)).
Proof.
  intros Hrec.
  destruct (handleAnalyze_delivers _ _ _ _ Hrec) as (ai & text & result & _ & _ & _ & _ & H).
  split; intros Hm; rewrite Hm in H.
  - destruct (recommendation_persona_inv _ _ H) as [Hmulti _].
    unfold column, title. rewrite Hmulti. split; reflexivity.
  - destruct (recommendation_script_inv _ _ H) as (parts & read & Hread & Hv & Hmulti & Hp).
    destruct (mapM_get_inv _ _ _ Hread) as [Hr ->].
    split; [unfold title; rewrite Hmulti; reflexivity|].
    exists parts, (new_Set (map (fun p => field p (js "voiceName")) parts)).
    split; [exact Hp | split; [exact Hv | split]].
    + unfold column. rewrite Hmulti, Hp, (mapM_row_readable parts Hr). reflexivity.
    + assert (Hnd : all_different []) by (intros [|i] j a b _ Ha; discriminate Ha).
      destruct (fold_Set_add_spec (map (fun p => field p (js "voiceName")) parts) []
                  Hnd (Forall_nil _)) as (_ & Hin & _).
      intros p Hp'. apply Hin.
      apply (in_map (fun p => field p (js "voiceName")) parts p Hp').
Qed.

(** The script reply of three turns. *)
Lemma card_lays_out_a_delivered_record_witness :
  recommended
    (handleAnalyze Fixtures.parse (Fixtures.replying (Some Fixtures.script_reply_text))
       (Fixtures.dialog script "Alex: We found it."))
  = recommended (Fixtures.dialog script "Alex: We found it.") ++ [Fixtures.script_record] /\
  (mode (Fixtures.dialog script "Alex: We found it.") = persona ->
   title Fixtures.script_record = js "AI Suggested Persona" /\
   column Fixtures.script_record = Normal (Quote (sampleText Fixtures.script_record))) /\
  (mode (Fixtures.dialog script "Alex: We found it.") = script ->
   title Fixtures.script_record = js "AI Script Analysis" /\
   exists parts listed,
     scriptParts Fixtures.script_record = Some (VArray parts) /\
     voiceNames Fixtures.script_record = VArray listed /\
     column Fixtures.script_record
     = Normal (Rows (map (fun p => {| row_speaker := field p (js "speaker");
                                      row_voiceName := field p (js "voiceName");
                                      row_text := field p (js "text") |}) parts)) /\
     (forall p, In p parts -> In (stored (field p (js "voiceName"))) listed)).
Proof.
  assert (H : recommended
    (handleAnalyze Fixtures.parse (Fixtures.replying (Some Fixtures.script_reply_text))
       (Fixtures.dialog script "Alex: We found it."))
    = recommended (Fixtures.dialog script "Alex: We found it.") ++ [Fixtures.script_record])
    by (vm_compute; reflexivity).
  split; [exact H|].
  exact (card_lays_out_a_delivered_record _ _ _ _ H).
Defined.

(** X19: the notes of the card on a record the dialog passed on.  When
    the instruction of the record is a string, the notes are its
    normalisation; when it is anything else, which the dialog lets
    through for a reply that is not of the requested shape, the memo
    throws. *)
Theorem card_notes_of_a_delivered_record
  (JSON_parse : jsstring -> option value) (GoogleGenAI : completion Client)
  (d : Dialog) (rec : AiRecommendation) :
  recommended (handleAnalyze JSON_parse GoogleGenAI d) = recommended d ++ [rec] ->
  (forall text, systemInstruction rec = VString text ->
                instruction_memo rec = Normal (formattedInstruction text)) /\
  ((forall text, systemInstruction rec <> VString text) ->
   instruction_memo rec = Throws).
Proof.
  intros Hrec.
  destruct (handleAnalyze_delivers _ _ _ _ Hrec) as (ai & text & result & _ & _ & _ & _ & H).
  destruct (recommendation_texts _ _ _ H) as [Hs _].
  unfold instruction_memo. split.
  - intros t Ht. rewrite Ht. rewrite formattedInstruction_replace.
    destruct t as [|c t]; [rewrite replace_headings_nil|]; reflexivity.
  - intros Hn. destruct (or_else_text (field result (js "systemInstruction"))) as [E|E];
      rewrite <- Hs in E.
    + destruct (Hn [] E).
    + rewrite E. destruct (systemInstruction rec) as [| | | |t| |]; try reflexivity.
      destruct (Hn t eq_refl).
Qed.

(** The reply whose instruction is the number 7. *)
Lemma card_notes_of_a_delivered_record_witness :
  recommended
    (handleAnalyze MoreFixtures.parse
       (Fixtures.replying (Some MoreFixtures.numbered_reply_text))
       (Fixtures.dialog script "Alex: We found it."))
  = recommended (Fixtures.dialog script "Alex: We found it.")
    ++ [MoreFixtures.numbered_record] /\
  instruction_memo MoreFixtures.numbered_record = Throws.
Proof.
  assert (H : recommended
    (handleAnalyze MoreFixtures.parse
       (Fixtures.replying (Some MoreFixtures.numbered_reply_text))
       (Fixtures.dialog script "Alex: We found it."))
    = recommended (Fixtures.dialog script "Alex: We found it.")
      ++ [MoreFixtures.numbered_record])
    by (vm_compute; reflexivity).
  split; [exact H|].
  refine (proj2 (card_notes_of_a_delivered_record _ _ _ _ H) _).
  intros text. discriminate.
Defined.
